(** * Streamlines: the seeding and integration core of [windmap.py]

    A shallow embedding of class [Streamlines] of
    [code/showcases/windmap.py] and the properties of its coverage mask,
    its interpolation routine and its two loops.

    Numbers.  The Python code computes on IEEE doubles, and the class is
    embedded twice.

    In the first embedding every float is an exact rational ([Q]): [+],
    [-], [*], [/] and the comparisons are the exact ones, [int] truncates
    towards zero and [% 1] is the fractional part with the sign of the
    divisor.  The transcendental NumPy functions ([np.sqrt], [np.arctan2],
    [np.cos], [np.sin], [np.hypot]) are not rational: they are the fields
    of the class [NumPy] below and every theorem holds for whatever
    functions are put there.  This embedding carries the statements that
    rest on comparisons of grid values, on counters, on the bookkeeping of
    the mask and on the error paths, none of which rounding touches.

    The second embedding, module [Double], has the same methods on binary64
    floats with the primitive IEEE operations.  The statements that
    rounding does touch are made and proved there: the indices line 103
    computes, the progress of the seeding loop and its termination.

    Effects.  [self.used] is the one piece of state that the methods share
    and mutate; it is threaded explicitly.  An access outside an array is
    Python's [IndexError]; a loop is run on fuel. *)

From Stdlib Require Import ZArith QArith Qround List Bool Lia Lqa.
From Stdlib Require Floats Uint63.
Import ListNotations.

(** ** Results of fallible, possibly diverging code *)

Inductive result (A : Type) : Type :=
| Val (a : A)
| IndexError
| OutOfFuel.

Arguments Val {A} a.
Arguments IndexError {A}.
Arguments OutOfFuel {A}.

Definition bind {A B : Type} (c : result A) (k : A -> result B) : result B :=
  match c with
  | Val a => k a
  | IndexError => IndexError
  | OutOfFuel => OutOfFuel
  end.

Declare Scope result_scope.
Delimit Scope result_scope with result.
Notation "x <- c ;; k" := (bind c (fun x => k))
  (at level 61, c at next level, right associativity) : result_scope.
Notation "' p <- c ;; k" := (bind c (fun x => let 'p := x in k))
  (at level 61, p pattern, c at next level, right associativity) : result_scope.
Open Scope result_scope.

(** ** Python and NumPy indexing *)

Module Py.

  (** [a[k]] on an axis of [n] elements: a negative index counts from the
      end, anything else outside [0, n) raises. *)
Definition index (n : nat) (k : Z) : option nat :=
    if ((0 <=? k) && (k <? Z.of_nat n))%Z then Some (Z.to_nat k)
    else if ((- Z.of_nat n <=? k) && (k <? 0))%Z
         then Some (Z.to_nat (k + Z.of_nat n))
         else None.

Definition getitem {A : Type} (l : list A) (k : Z) : result A :=
    match index (length l) k with
    | Some n => match nth_error l n with
                | Some a => Val a
                | None => IndexError
                end
    | None => IndexError
    end.

  (** [a[j, i]] on a two-dimensional array stored by rows. *)
Definition getitem2 {A : Type} (m : list (list A)) (j i : Z) : result A :=
    row <- getitem m j ;; getitem row i.

  (** One end of a slice [a[lo:hi]], clipped to the axis as Python does. *)
Definition clip (n : nat) (a : Z) : nat :=
    if (a <? 0)%Z then Z.to_nat (Z.max (a + Z.of_nat n) 0)
    else Z.to_nat (Z.min a (Z.of_nat n)).

Definition in_slice (n : nat) (lo hi : Z) (k : nat) : bool :=
    (clip n lo <=? k)%nat && (k <? clip n hi)%nat.

  (** [int(q)] of a float: truncation towards zero. *)
Definition int (q : Q) : Z := Z.quot (Qnum q) (Zpos (Qden q)).

  (** [q % 1] of a float: the result takes the sign of the divisor. *)
Definition mod1 (q : Q) : Q := q - inject_Z (Qfloor q).

Definition Qltb (a b : Q) : bool := negb (Qle_bool b a).

Fixpoint mapi_from {A B : Type} (k : nat) (f : nat -> A -> B) (l : list A)
    : list B :=
    match l with
    | [] => []
    | a :: l' => f k a :: mapi_from (S k) f l'
    end.

Definition mapi {A B : Type} (f : nat -> A -> B) (l : list A) : list B :=
    mapi_from 0 f l.

End Py.

(** ** The coverage mask [self.used] *)

Definition mask : Type := list (list bool).

Module Mask.

  (** [np.zeros(u.shape, dtype=bool)] *)
Definition nrows {A : Type} (m : list (list A)) : nat := length m.
Definition ncols {A : Type} (m : list (list A)) : nat :=
    match m with
    | [] => 0
    | row :: _ => length row
    end.

Definition zeros (rows cols : nat) : mask := repeat (repeat false cols) rows.

  (** [used[k] = True] *)
Definition set_row (m : mask) (k : Z) : result mask :=
    match Py.index (nrows m) k with
    | Some r =>
        Val (Py.mapi (fun r' row =>
                        if (r' =? r)%nat then map (fun _ => true) row else row) m)
    | None => IndexError
    end.

  (** [used[:, k] = True] *)
Definition set_col (m : mask) (k : Z) : result mask :=
    match Py.index (ncols m) k with
    | Some c =>
        Val (map (Py.mapi (fun c' b => if (c' =? c)%nat then true else b)) m)
    | None => IndexError
    end.

  (** [used[j, i] = True] *)
Definition set_cell (m : mask) (j i : Z) : result mask :=
    match Py.index (nrows m) j, Py.index (ncols m) i with
    | Some r, Some c =>
        Val (Py.mapi (fun r' row =>
                        if (r' =? r)%nat
                        then Py.mapi (fun c' b => if (c' =? c)%nat then true else b) row
                        else row) m)
    | _, _ => IndexError
    end.

  (** [used[j : j + s, i : i + s] = True]; a slice never raises. *)
Definition set_block (m : mask) (j i s : Z) : mask :=
    Py.mapi (fun r row =>
               if Py.in_slice (nrows m) j (j + s) r
               then Py.mapi (fun c b =>
                               if Py.in_slice (length row) i (i + s) c
                               then true else b) row
               else row) m.

  (** [used.all()] *)
Definition all (m : mask) : bool := forallb (forallb (fun b => b)) m.

  (** [np.transpose(np.logical_not(used).nonzero())]: the index pairs
      [(row, col)] of the cells that are not yet used, in row-major order. *)
Definition logical_not (m : mask) : mask := map (map negb) m.

Definition nonzero_row (r : nat) (row : list bool) : list (nat * nat) :=
    flat_map (fun p => p)
             (Py.mapi (fun c (b : bool) => if b then [(r, c)] else []) row).

Definition nonzero_T (m : mask) : list (nat * nat) :=
    flat_map (fun p => p) (Py.mapi nonzero_row m).

  (** The cell at [(r, c)]; cells outside the array read as used. *)
Definition cell (m : mask) (r c : nat) : bool :=
    nth c (nth r m []) true.

Definition count_row (b : bool) (row : list bool) : nat :=
    length (filter (Bool.eqb b) row).

  (** Number of cells holding [b]. *)
Definition count (b : bool) (m : mask) : nat :=
    list_sum (map (count_row b) m).

  (** [m'] has the shape of [m] and every cell set in [m] is set in [m']. *)
Definition row_le : list bool -> list bool -> Prop :=
    Forall2 (fun a b : bool => a = true -> b = true).

Definition le (m m' : mask) : Prop := Forall2 row_le m m'.

Definition shape (rows cols : nat) {A : Type} (m : list (list A)) : Prop :=
    length m = rows /\ Forall (fun row => length row = cols) m.

End Mask.

(** ** The NumPy functions the class calls *)

Class NumPy : Type := {
  np_sqrt : Q -> Q;
  np_arctan2 : Q -> Q -> Q;
  np_cos : Q -> Q;
  np_sin : Q -> Q;
  np_hypot : Q -> Q -> Q
}.

(** ** The object: the attributes set once by [__init__] *)

Record Streamlines : Type := {
  self_spacing : Z;
  self_detectLoops : bool;
  self_maxLen : Z;
  self_res : Q;
  self_x : list Q;
  self_y : list Q;
  self_u : list (list Q);
  self_v : list (list Q);
  self_dx : Q;
  self_dy : Q;
  self_dr : Q
}.

(** A coordinate argument: a 1D array or a 2D mesh-grid array. *)
Inductive ndarray : Type :=
| Arr1 (a : list Q)
| Arr2 (a : list (list Q)).

(** A streamline: the pair [(xs, ys)]. *)
Definition streamline : Type := (list Q * list Q)%type.

Section Generator.

Context {np : NumPy}.

  (** [xa if xa.ndim == 1 else xa[0]] *)
Definition axis_x (X : ndarray) : result (list Q) :=
    match X with
    | Arr1 a => Val a
    | Arr2 a => Py.getitem a 0
    end.

  (** [ya if ya.ndim == 1 else ya[:, 0]] *)
Definition axis_y (Y : ndarray) : result (list Q) :=
    match Y with
    | Arr1 a => Val a
    | Arr2 a =>
        match Py.index (Mask.ncols a) 0 with
        | Some _ => Val (map (fun row => nth 0 row 0) a)
        | None => IndexError
        end
    end.

  (** Lines 58-71 of [__init__].  With a single coordinate on an axis NumPy
      divides by zero and stores [nan] (with a warning); [Q] stores [0]. *)
Definition attrs (X Y : ndarray) (U V : list (list Q))
             (res : Q) (spacing maxLen : Z) (detectLoops : bool)
    : result Streamlines :=
    x <- axis_x X ;;
    y <- axis_y Y ;;
    xl <- Py.getitem x (-1) ;;
    x0 <- Py.getitem x 0 ;;
    let dx := (xl - x0) / inject_Z (Z.of_nat (length x) - 1) in
    yl <- Py.getitem y (-1) ;;
    y0 <- Py.getitem y 0 ;;
    let dy := (yl - y0) / inject_Z (Z.of_nat (length y) - 1) in
    let dr := res * np_sqrt (dx * dy) in
    Val {| self_spacing := spacing;
           self_detectLoops := detectLoops;
           self_maxLen := maxLen;
           self_res := res;
           self_x := x;
           self_y := y;
           self_u := U;
           self_v := V;
           self_dx := dx;
           self_dy := dy;
           self_dr := dr |}.

  (** Lines 74-78: the mask of the shape of [u], its border ring set. *)
Definition border (U : list (list Q)) : result mask :=
    let used := Mask.zeros (Mask.nrows U) (Mask.ncols U) in
    used <- Mask.set_row used 0 ;;
    used <- Mask.set_row used (-1) ;;
    used <- Mask.set_col used 0 ;;
    Mask.set_col used (-1).

  (** [for k in range(n): s = body(k, s)] *)
Fixpoint for_each {S : Type} (ks : list nat) (body : nat -> S -> result S)
           (s : S) : result S :=
    match ks with
    | [] => Val s
    | k :: ks' => s' <- body k s ;; for_each ks' body s'
    end.

Definition for_range {S : Type} (n : nat) (body : nat -> S -> result S)
             (s : S) : result S :=
    for_each (seq 0 n) body s.

  (** Lines 83-84; [and] does not read [v] when [u[j, i]] is not zero. *)
Definition mark_still (g : Streamlines) (i j : nat) (used : mask)
    : result mask :=
    uji <- Py.getitem2 (self_u g) (Z.of_nat j) (Z.of_nat i) ;;
    if Qeq_bool uji 0 then
      vji <- Py.getitem2 (self_v g) (Z.of_nat j) (Z.of_nat i) ;;
      if Qeq_bool vji 0
      then Mask.set_cell used (Z.of_nat j) (Z.of_nat i)
      else Val used
    else Val used.

  (** Lines 81-84. *)
Definition mark_all_still (g : Streamlines) (used : mask) : result mask :=
    for_range (length (self_x g))
              (fun i => for_range (length (self_y g)) (mark_still g i))
              used.

  (** The four reads and the weighted sum of lines 106-111 (and 113-118). *)
Definition bilinear (f : list (list Q)) (i j : Z) (ai aj : Q) : result Q :=
    f00 <- Py.getitem2 f j i ;;
    f01 <- Py.getitem2 f j (i + 1) ;;
    f10 <- Py.getitem2 f (j + 1) i ;;
    f11 <- Py.getitem2 f (j + 1) (i + 1) ;;
    Val (f00 * (1 - ai) * (1 - aj)
         + f01 * ai * (1 - aj)
         + f10 * (1 - ai) * aj
         + f11 * ai * aj).

  (** [_interp]: the velocity at [(x, y)], and the mask after line 120. *)
Definition _interp (g : Streamlines) (used : mask) (x y : Q)
    : result (Q * Q * mask) :=
    x0 <- Py.getitem (self_x g) 0 ;;
    let i := (x - x0) / self_dx g in
    let ai := Py.mod1 i in
    y0 <- Py.getitem (self_y g) 0 ;;
    let j := (y - y0) / self_dy g in
    let aj := Py.mod1 j in
    let i := Py.int i in
    let j := Py.int j in
    u <- bilinear (self_u g) i j ai aj ;;
    v <- bilinear (self_v g) i j ai aj ;;
    Val (u, v, Mask.set_block used j i (self_spacing g)).

  (** [_detectLoop] *)
Definition _detectLoop (g : Streamlines) (xVals yVals : list Q)
    : result bool :=
    x <- Py.getitem xVals (-1) ;;
    y <- Py.getitem yVals (-1) ;;
    let D := map (fun p : Q * Q => let (xj, yj) := p in np_hypot (x - xj) (y - yj))
                 (combine (removelast xVals) (removelast yVals)) in
    Val (existsb (fun d => Py.Qltb d ((9 # 10) * self_dr g)) D).

  (** The guard of line 153. *)
Definition inside (xmin xmax ymin ymax x y : Q) : bool :=
    (Py.Qltb xmin x && Py.Qltb x xmax) && (Py.Qltb ymin y && Py.Qltb y ymax).

  (** The [while] of [_makeHalfStreamline], lines 153-168, from the state
      [(used, x, y, i, sx, sy)]. *)
Fixpoint half_loop (fuel : nat) (g : Streamlines) (sign : Z)
           (xmin xmax ymin ymax : Q)
           (used : mask) (x y : Q) (i : Z) (sx sy : list Q)
    : result (list Q * list Q * mask) :=
    match fuel with
    | O => OutOfFuel
    | S fuel' =>
        if inside xmin xmax ymin ymax x y then
          '(u, v, used) <- _interp g used x y ;;
          let theta := np_arctan2 v u in
          let x := x + inject_Z sign * self_dr g * np_cos theta in
          let y := y + inject_Z sign * self_dr g * np_sin theta in
          let sx := sx ++ [x] in
          let sy := sy ++ [y] in
          let i := (i + 1)%Z in
          looped <- (if self_detectLoops g && (i mod 10 =? 0)%Z
                     then _detectLoop g sx sy
                     else Val false) ;;
          if looped : bool then Val (sx, sy, used)
          else if Py.Qltb (inject_Z (self_maxLen g) / 2) (inject_Z i)
               then Val (sx, sy, used)
               else half_loop fuel' g sign xmin xmax ymin ymax used x y i sx sy
        else Val (sx, sy, used)
    end.

  (** Iterations that always suffice for the loop above: its counter grows
      by one each turn and line 167 leaves once it passes [maxLen / 2]. *)
Definition half_fuel (g : Streamlines) : nat :=
    S (Z.to_nat (self_maxLen g / 2)).

  (** [_makeHalfStreamline] *)
Definition _makeHalfStreamline (g : Streamlines) (used : mask)
             (x0 y0 : Q) (sign : Z) : result (list Q * list Q * mask) :=
    xmin <- Py.getitem (self_x g) 0 ;;
    xmax <- Py.getitem (self_x g) (-1) ;;
    ymin <- Py.getitem (self_y g) 0 ;;
    ymax <- Py.getitem (self_y g) (-1) ;;
    half_loop (half_fuel g) g sign xmin xmax ymin ymax used x0 y0 0 [] [].

  (** [_makeStreamline] *)
Definition _makeStreamline (g : Streamlines) (used : mask) (x0 y0 : Q)
    : result (streamline * mask) :=
    '(sx, sy, used) <- _makeHalfStreamline g used x0 y0 1 ;;
    '(rx, ry, used) <- _makeHalfStreamline g used x0 y0 (-1) ;;
    let rx := rev rx in
    let ry := rev ry in
    Val ((rx ++ [x0] ++ sx, ry ++ [y0] ++ sy), used).

  (** Lines 89 and 92: the seed of the next streamline. *)
Definition seed (g : Streamlines) (used : mask) : result (Q * Q) :=
    let nz := Mask.nonzero_T (Mask.logical_not used) in
    nz0 <- Py.getitem nz 0 ;;
    x0 <- Py.getitem (self_x g) (Z.of_nat (snd nz0)) ;;
    y0 <- Py.getitem (self_y g) (Z.of_nat (fst nz0)) ;;
    Val (x0, y0).

  (** The body of the [while] of lines 88-93. *)
Definition outer_body (g : Streamlines) (used : mask)
    : result (streamline * mask) :=
    '(x0, y0) <- seed g used ;;
    _makeStreamline g used x0 y0.

  (** The [while] of lines 88-93. *)
Fixpoint main_loop (fuel : nat) (g : Streamlines) (used : mask)
           (streamlines : list streamline) : result (list streamline * mask) :=
    match fuel with
    | O => OutOfFuel
    | S fuel' =>
        if negb (Mask.all used) then
          '(s, used) <- outer_body g used ;;
          main_loop fuel' g used (streamlines ++ [s])
        else Val (streamlines, used)
    end.

  (** [Streamlines.__init__]: the streamlines and the final mask. *)
Definition __init__ (fuel : nat) (X Y : ndarray) (U V : list (list Q))
             (res : Q) (spacing maxLen : Z) (detectLoops : bool)
    : result (list streamline * mask) :=
    g <- attrs X Y U V res spacing maxLen detectLoops ;;
    used <- border (self_u g) ;;
    used <- mark_all_still g used ;;
    main_loop fuel g used [].

End Generator.

(** * Vocabulary of the statements *)

(** What lines 69-70 leave in an object: both axes hold a coordinate and the
    steps are the ones computed from their ends. *)
Definition constructed (g : Streamlines) : Prop :=
  self_x g <> [] /\ self_y g <> [] /\
  self_dx g = (last (self_x g) 0 - nth 0 (self_x g) 0)
              / inject_Z (Z.of_nat (length (self_x g)) - 1) /\
  self_dy g = (last (self_y g) 0 - nth 0 (self_y g) 0)
              / inject_Z (Z.of_nat (length (self_y g)) - 1).

(** The field arrays have one row per [y] and one column per [x]. *)
Definition fits (g : Streamlines) : Prop :=
  Mask.shape (length (self_y g)) (length (self_x g)) (self_u g) /\
  Mask.shape (length (self_y g)) (length (self_x g)) (self_v g).

(** The guard of line 153 at [(x, y)] for the object [g]. *)
Definition in_box (g : Streamlines) (x y : Q) : Prop :=
  (nth 0 (self_x g) 0 < x /\ x < last (self_x g) 0) /\
  (nth 0 (self_y g) 0 < y /\ y < last (self_y g) 0).

(** The sample [f[j, i]] of an array, for statements. *)
Definition sample (f : list (list Q)) (j i : Z) : Q :=
  nth (Z.to_nat i) (nth (Z.to_nat j) f []) 0.


(** Strictly increasing coordinates. *)
Fixpoint increasing (l : list Q) : bool :=
  match l with
  | [] => true
  | a :: l' =>
      match l' with
      | [] => true
      | b :: _ => Py.Qltb a b && increasing l'
      end
  end.


(** The border ring of a mask of [rows] by [cols] cells is set: a cell that
    is not set is an inner one. *)
Definition ringed (rows cols : nat) (m : mask) : Prop :=
  Mask.shape rows cols m /\
  forall r c, Mask.cell m r c = false ->
              (0 < r /\ r + 1 < rows)%nat /\ (0 < c /\ c + 1 < cols)%nat.


(** The fractional index of [x] along the x axis, its cell and its offset
    in the cell; the same along the y axis. *)
Definition pos_i (g : Streamlines) (x : Q) : Q :=
  (x - nth 0 (self_x g) 0) / self_dx g.
Definition pos_j (g : Streamlines) (y : Q) : Q :=
  (y - nth 0 (self_y g) 0) / self_dy g.

(** The scan the seeding step stands for, written out: rows outside,
    columns inside, stop at the first cell that is not set. *)
Fixpoint scan_row (row : list bool) (c : nat) : option nat :=
  match row with
  | [] => None
  | b :: row' => if b then scan_row row' (S c) else Some c
  end.

Fixpoint scan_rows (m : mask) (r : nat) : option (nat * nat) :=
  match m with
  | [] => None
  | row :: m' =>
      match scan_row row 0 with
      | Some c => Some (r, c)
      | None => scan_rows m' (S r)
      end
  end.

Definition first_unused (m : mask) : option (nat * nat) := scan_rows m 0.

(** [(r, c)] comes before [(r', c')] in row-major order. *)
Definition row_major_lt (p q : nat * nat) : Prop :=
  (fst p < fst q)%nat \/ (fst p = fst q /\ snd p < snd q)%nat.

(** ** A concrete run: the uniform wind blowing east

    The field [U = 1, V = 0] on a grid of three by three unit cells.  Every
    interpolated velocity is [(1, 0)], so the runs below apply [np.sqrt] to
    [dx * dy = 1] only, [np.arctan2] to [(0, 1)] only and [np.cos] and
    [np.sin] to [0] only; there NumPy returns [1], [0], [1] and [0], also on
    doubles, and the functions of [east] agree with it ([np_sqrt] is the
    exact root of a rational whose numerator and denominator are squares). *)
Definition east : NumPy :=
  {| np_sqrt := fun q => inject_Z (Z.sqrt (Qnum q)) / inject_Z (Z.sqrt (Zpos (Qden q)));
     np_arctan2 := fun _ _ => 0;
     np_cos := fun _ => 1;
     np_sin := fun _ => 0;
     np_hypot := fun a b =>
       let q := a * a + b * b in
       inject_Z (Z.sqrt (Qnum q)) / inject_Z (Z.sqrt (Zpos (Qden q))) |}.

Definition axis3 : list Q := [0; 1; 2].


Definition uniform (rows cols : nat) (q : Q) : list (list Q) :=
  repeat (repeat q cols) rows.

(** The object [__init__] builds for [Streamlines(axis3, axis3, 1, 0,
    res=0.5)], and the one for the coordinates running down. *)
Definition east3 (x y : list Q) (spacing : Z) : Streamlines :=
  {| self_spacing := spacing;
     self_detectLoops := false;
     self_maxLen := 2500;
     self_res := 1 # 2;
     self_x := x;
     self_y := y;
     self_u := uniform 3 3 1;
     self_v := uniform 3 3 0;
     self_dx := (last x 0 - nth 0 x 0) / inject_Z (Z.of_nat (length x) - 1);
     self_dy := (last y 0 - nth 0 y 0) / inject_Z (Z.of_nat (length y) - 1);
     self_dr := (1 # 2) * @np_sqrt east
                  (((last x 0 - nth 0 x 0) / inject_Z (Z.of_nat (length x) - 1))
                   * ((last y 0 - nth 0 y 0) / inject_Z (Z.of_nat (length y) - 1))) |}.

(** The mask of that object when the seeding loop starts: the ring is set,
    the cell in the middle is not. *)
Definition ring3 : mask :=
  [[true; true; true]; [true; false; true]; [true; true; true]].

(** The run of [__init__] on the uniform wind, with the default [spacing]
    and [maxLen], and what it returns. *)
Definition east_run (fuel : nat) : result (list streamline * mask) :=
  @__init__ east fuel (Arr1 axis3) (Arr1 axis3) (uniform 3 3 1) (uniform 3 3 0)
            (1 # 2) 2 2500 false.

Definition east_lines : list streamline * mask :=
  Eval vm_compute in
    match east_run 2 with
    | Val r => r
    | _ => ([], [])
    end.


(** The same wind with [spacing = 0]. *)
Definition unspaced_run (fuel : nat) : result (list streamline * mask) :=
  @__init__ east fuel (Arr1 axis3) (Arr1 axis3) (uniform 3 3 1) (uniform 3 3 0)
            (1 # 2) 0 2500 false.

(** The same wind on a grid with a single x coordinate. *)
Definition column_run (fuel : nat) : result (list streamline * mask) :=
  @__init__ east fuel (Arr1 [0]) (Arr1 axis3) (uniform 3 1 1) (uniform 3 1 0)
            (1 # 2) 2 2500 false.

(** The same wind with [res = 0.125] and [maxLen = 4]. *)
Definition short_run (fuel : nat) : result (list streamline * mask) :=
  @__init__ east fuel (Arr1 axis3) (Arr1 axis3) (uniform 3 3 1) (uniform 3 3 0)
            (1 # 8) 2 4 false.

Definition short_lines : list streamline * mask :=
  Eval vm_compute in
    match short_run 2 with
    | Val r => r
    | _ => ([], [])
    end.

(** ** Vocabulary of the loop of [_makeHalfStreamline]

    A predicate on the state of the loop: the mask, the position, the
    counter and the two lists of points. *)
Definition half_state : Type := mask -> Q -> Q -> Z -> list Q -> list Q -> Prop.

(** One turn, lines 154-162, from a state that satisfies [I] and passes the
    guard, leads to a state that satisfies [k]. *)
Definition turn {np : NumPy} (g : Streamlines) (sign : Z)
           (xmin xmax ymin ymax : Q) (I : half_state)
           (used : mask) (x y : Q) (i : Z) (sx sy : list Q)
           (k : half_state) : Prop :=
  forall u v used',
    I used x y i sx sy ->
    inside xmin xmax ymin ymax x y = true ->
    _interp g used x y = Val (u, v, used') ->
    let x' := x + inject_Z sign * self_dr g * np_cos (np_arctan2 v u) in
    let y' := y + inject_Z sign * self_dr g * np_sin (np_arctan2 v u) in
    k used' x' y' (i + 1)%Z (sx ++ [x']) (sy ++ [y']).

(** The loop run on the bounding box of the grid. *)
Definition box_loop {np : NumPy} (g : Streamlines) (fuel : nat) (sign : Z) :=
  half_loop fuel g sign (nth 0 (self_x g) 0) (last (self_x g) 0)
            (nth 0 (self_y g) 0) (last (self_y g) 0).

(** Every point of a half-streamline but the last one passed the guard. *)
Definition all_but_last_in_box (g : Streamlines) (sx sy : list Q) : Prop :=
  length sx = length sy /\
  forall k, (k + 1 < length sx)%nat -> in_box g (nth k sx 0) (nth k sy 0).

(** ** Further concrete objects *)

(** The object [g] with other field arrays. *)
Definition with_field (g : Streamlines) (U V : list (list Q)) : Streamlines :=
  {| self_spacing := self_spacing g;
     self_detectLoops := self_detectLoops g;
     self_maxLen := self_maxLen g;
     self_res := self_res g;
     self_x := self_x g;
     self_y := self_y g;
     self_u := U;
     self_v := V;
     self_dx := self_dx g;
     self_dy := self_dy g;
     self_dr := self_dr g |}.

(** The wind of [east3] with no velocity in the cell in the middle. *)
Definition calm3 : Streamlines :=
  with_field (east3 axis3 axis3 2)
             [[1; 1; 1]; [1; 0; 1]; [1; 1; 1]] (uniform 3 3 0).

Definition full3 : mask :=
  [[true; true; true]; [true; true; true]; [true; true; true]].

(** [np.meshgrid(x, y)] as NumPy documents it: [X] holds the row [x] once
    for every [y], [Y] holds each [y] along its row. *)
Definition meshgrid (x y : list Q) : ndarray * ndarray :=
  (Arr2 (map (fun _ => x) y), Arr2 (map (fun yv => map (fun _ => yv) x) y)).

(** ** The drawing loop of the script, lines 216-231

    What the script computes for each streamline before it hands it to
    [LineCollection].  [np.random.uniform(0, 1)] is the argument [phase]:
    the statements hold for whatever number is drawn. *)

(** [np.array([x, y]).T.reshape(-1, 1, 2)], for [x] and [y] of one length. *)
Definition points (s : streamline) : list (Q * Q) := combine (fst s) (snd s).

(** [np.concatenate([points[:-1], points[1:]], axis=1)] *)
Definition segments (pts : list (Q * Q)) : list ((Q * Q) * (Q * Q)) :=
  combine (removelast pts) (tl pts).

(** [np.sqrt(((points[1:] - points[:-1]) ** 2).sum(axis=-1))] *)
Definition seg_lengths {np : NumPy} (pts : list (Q * Q)) : list Q :=
  map (fun pq : (Q * Q) * (Q * Q) =>
         let (p, q) := pq in
         np_sqrt ((fst q - fst p) * (fst q - fst p)
                  + (snd q - snd p) * (snd q - snd p)))
      (segments pts).

(** [D.cumsum()] *)
Fixpoint cumsum_from (acc : Q) (l : list Q) : list Q :=
  match l with
  | [] => []
  | d :: l' => (acc + d) :: cumsum_from (acc + d) l'
  end.

Definition cumsum (l : list Q) : list Q :=
  match l with
  | [] => []
  | d :: l' => d :: cumsum_from d l'
  end.

(** [L = D.cumsum().reshape(n, 1) + np.random.uniform(0, 1)] *)
Definition arclengths {np : NumPy} (phase : Q) (pts : list (Q * Q)) : list Q :=
  map (fun l => l + phase) (cumsum (seg_lengths pts)).

(** [linewidths[:] = 2 - ((L.reshape(n) * 1.5) % 1)] *)
Definition linewidths {np : NumPy} (phase : Q) (pts : list (Q * Q)) : list Q :=
  map (fun l => 2 - Py.mod1 (l * (3 # 2))) (arclengths phase pts).


(** * The class on IEEE doubles

    The same methods once more, line for line, with the numbers the
    interpreter computes on: binary64 floats, every operation rounded to
    nearest.  [+], [-], [*], [/], [np.sqrt] and the comparisons are the
    primitive IEEE operations; [np.arctan2], [np.cos], [np.sin] and
    [np.hypot] are the fields of the class [NumPy] of this module.  What is
    proved of this model is proved of the rounded arithmetic: nothing in the
    proofs relies on a law of the rationals. *)

Module Double.

Import PrimFloat SpecFloat FloatOps.
Local Open Scope float_scope.

(** The exceptions the methods can raise: a read outside an array, and
    [int] of a [nan] or of an infinity. *)
Inductive exception : Type :=
| IndexError
| ValueError
| OverflowError.

(** What a run comes to: a value, an exception, or a loop still running
    when its fuel is spent. *)
Inductive outcome (A : Type) : Type :=
| Ret (a : A)
| Raise (e : exception)
| Running.

Arguments Ret {A} a.
Arguments Raise {A} e.
Arguments Running {A}.

Definition bind {A B : Type} (c : outcome A) (k : A -> outcome B) : outcome B :=
  match c with
  | Ret a => k a
  | Raise e => Raise e
  | Running => Running
  end.

Declare Scope outcome_scope.
Delimit Scope outcome_scope with outcome.
Notation "x <- c ;; k" := (bind c (fun x => k))
  (at level 61, c at next level, right associativity) : outcome_scope.
Notation "' p <- c ;; k" := (bind c (fun x => let 'p := x in k))
  (at level 61, p pattern, c at next level, right associativity) : outcome_scope.
Local Open Scope outcome_scope.

(** Indexing and the operations on the mask are the ones above. *)
Definition lift {A : Type} (r : result A) : outcome A :=
  match r with
  | Val a => Ret a
  | OutOfFuel => Running
  | _ => Raise IndexError
  end.

Definition getitem {A : Type} (l : list A) (k : Z) : outcome A :=
  lift (Py.getitem l k).

Definition getitem2 {A : Type} (m : list (list A)) (j i : Z) : outcome A :=
  lift (Py.getitem2 m j i).

(** [float(n)] of a Python [int]: the sizes of the axes and the [sign] of a
    half-streamline, all far below [2^53], where the conversion is exact. *)
Definition of_int (n : Z) : float :=
  match n with
  | Z0 => 0
  | Zpos _ => of_uint63 (Uint63.of_Z n)
  | Zneg p => - of_uint63 (Uint63.of_Z (Zpos p))
  end.

(** The integer part of a finite float [(-1)^s * m * 2^e], towards zero. *)
Definition trunc (s : bool) (m : positive) (e : Z) : Z :=
  let n := if (0 <=? e)%Z then (Zpos m * 2 ^ e)%Z else (Zpos m / 2 ^ (- e))%Z in
  if s then (- n)%Z else n.

(** [int(f)]: truncation towards zero; [nan] and the infinities raise. *)
Definition int (f : float) : outcome Z :=
  match Prim2SF f with
  | S754_nan => Raise ValueError
  | S754_infinity _ => Raise OverflowError
  | S754_zero _ => Ret 0%Z
  | S754_finite s m e => Ret (trunc s m e)
  end.

(** [f % 1]: C's [fmod(f, 1)], which is [f] less its integer part and is
    exact, moved into [[0, 1)] by adding [1] when it is negative; a zero
    result is [+0.0]. *)
Definition mod1 (f : float) : float :=
  match Prim2SF f with
  | S754_nan => nan
  | S754_infinity _ => nan
  | S754_zero _ => 0
  | S754_finite s m e =>
      if (0 <=? e)%Z then 0
      else
        let r := f - of_int (trunc s m e) in
        if r =? 0 then 0 else if r <? 0 then r + 1 else r
  end.

(** ** The NumPy functions that IEEE 754 does not fix *)

Class NumPy : Type := {
  np_arctan2 : float -> float -> float;
  np_cos : float -> float;
  np_sin : float -> float;
  np_hypot : float -> float -> float
}.

(** ** The object *)

Record Streamlines : Type := {
  self_spacing : Z;
  self_detectLoops : bool;
  self_maxLen : Z;
  self_res : float;
  self_x : list float;
  self_y : list float;
  self_u : list (list float);
  self_v : list (list float);
  self_dx : float;
  self_dy : float;
  self_dr : float
}.

Inductive ndarray : Type :=
| Arr1 (a : list float)
| Arr2 (a : list (list float)).

Definition streamline : Type := (list float * list float)%type.

Section Generator.

Context {np : NumPy}.

(** [xa if xa.ndim == 1 else xa[0]] *)
Definition axis_x (X : ndarray) : outcome (list float) :=
  match X with
  | Arr1 a => Ret a
  | Arr2 a => getitem a 0
  end.

(** [ya if ya.ndim == 1 else ya[:, 0]] *)
Definition axis_y (Y : ndarray) : outcome (list float) :=
  match Y with
  | Arr1 a => Ret a
  | Arr2 a =>
      match Py.index (Mask.ncols a) 0 with
      | Some _ => Ret (map (fun row => nth 0 row 0) a)
      | None => Raise IndexError
      end
  end.

(** Lines 58-71.  On an axis with a single coordinate the division of line
    69 (or 70) is [0.0 / 0], which NumPy answers with [nan] and a warning,
    as the IEEE division does. *)
Definition attrs (X Y : ndarray) (U V : list (list float))
           (res : float) (spacing maxLen : Z) (detectLoops : bool)
  : outcome Streamlines :=
  x <- axis_x X ;;
  y <- axis_y Y ;;
  xl <- getitem x (-1) ;;
  x0 <- getitem x 0 ;;
  let dx := (xl - x0) / of_int (Z.of_nat (length x) - 1) in
  yl <- getitem y (-1) ;;
  y0 <- getitem y 0 ;;
  let dy := (yl - y0) / of_int (Z.of_nat (length y) - 1) in
  let dr := res * sqrt (dx * dy) in
  Ret {| self_spacing := spacing;
         self_detectLoops := detectLoops;
         self_maxLen := maxLen;
         self_res := res;
         self_x := x;
         self_y := y;
         self_u := U;
         self_v := V;
         self_dx := dx;
         self_dy := dy;
         self_dr := dr |}.

(** Lines 74-78. *)
Definition border (U : list (list float)) : outcome mask :=
  lift (let used := Mask.zeros (Mask.nrows U) (Mask.ncols U) in
        (used <- Mask.set_row used 0 ;;
         used <- Mask.set_row used (-1) ;;
         used <- Mask.set_col used 0 ;;
         Mask.set_col used (-1))%result).

(** [for k in range(n): s = body(k, s)] *)
Fixpoint for_each {S : Type} (ks : list nat) (body : nat -> S -> outcome S)
         (s : S) : outcome S :=
  match ks with
  | [] => Ret s
  | k :: ks' => s' <- body k s ;; for_each ks' body s'
  end.

Definition for_range {S : Type} (n : nat) (body : nat -> S -> outcome S)
           (s : S) : outcome S :=
  for_each (seq 0 n) body s.

(** Lines 83-84; [nan == 0.0] is false, [-0.0 == 0.0] is true. *)
Definition mark_still (g : Streamlines) (i j : nat) (used : mask)
  : outcome mask :=
  uji <- getitem2 (self_u g) (Z.of_nat j) (Z.of_nat i) ;;
  if uji =? 0 then
    vji <- getitem2 (self_v g) (Z.of_nat j) (Z.of_nat i) ;;
    if vji =? 0
    then lift (Mask.set_cell used (Z.of_nat j) (Z.of_nat i))
    else Ret used
  else Ret used.

(** Lines 81-84. *)
Definition mark_all_still (g : Streamlines) (used : mask) : outcome mask :=
  for_range (length (self_x g))
            (fun i => for_range (length (self_y g)) (mark_still g i))
            used.

(** Lines 106-111 (and 113-118): the four reads, the products and the sums
    in the order Python evaluates them. *)
Definition bilinear (f : list (list float)) (i j : Z) (ai aj : float)
  : outcome float :=
  f00 <- getitem2 f j i ;;
  f01 <- getitem2 f j (i + 1) ;;
  f10 <- getitem2 f (j + 1) i ;;
  f11 <- getitem2 f (j + 1) (i + 1) ;;
  Ret (f00 * (1 - ai) * (1 - aj)
       + f01 * ai * (1 - aj)
       + f10 * (1 - ai) * aj
       + f11 * ai * aj).

(** [_interp], lines 97-122. *)
Definition _interp (g : Streamlines) (used : mask) (x y : float)
  : outcome (float * float * mask) :=
  x0 <- getitem (self_x g) 0 ;;
  let i := (x - x0) / self_dx g in
  let ai := mod1 i in
  y0 <- getitem (self_y g) 0 ;;
  let j := (y - y0) / self_dy g in
  let aj := mod1 j in
  i <- int i ;;
  j <- int j ;;
  u <- bilinear (self_u g) i j ai aj ;;
  v <- bilinear (self_v g) i j ai aj ;;
  Ret (u, v, Mask.set_block used j i (self_spacing g)).

(** [_detectLoop]; [0.9] is the double nearest to nine tenths. *)
Definition _detectLoop (g : Streamlines) (xVals yVals : list float)
  : outcome bool :=
  x <- getitem xVals (-1) ;;
  y <- getitem yVals (-1) ;;
  let D := map (fun p : float * float =>
                  let (xj, yj) := p in np_hypot (x - xj) (y - yj))
               (combine (removelast xVals) (removelast yVals)) in
  Ret (existsb (fun d => d <? 0x1.ccccccccccccdp-1 * self_dr g) D).

(** The guard of line 153. *)
Definition inside (xmin xmax ymin ymax x y : float) : bool :=
  ((xmin <? x) && (x <? xmax)) && ((ymin <? y) && (y <? ymax)).

(** The [while] of lines 153-168.  The test of line 167 compares the
    integer counter with [maxLen / 2], exactly. *)
Fixpoint half_loop (fuel : nat) (g : Streamlines) (sign : Z)
         (xmin xmax ymin ymax : float)
         (used : mask) (x y : float) (i : Z) (sx sy : list float)
  : outcome (list float * list float * mask) :=
  match fuel with
  | O => Running
  | S fuel' =>
      if inside xmin xmax ymin ymax x y then
        '(u, v, used) <- _interp g used x y ;;
        let theta := np_arctan2 v u in
        let x := x + of_int sign * self_dr g * np_cos theta in
        let y := y + of_int sign * self_dr g * np_sin theta in
        let sx := sx ++ [x] in
        let sy := sy ++ [y] in
        let i := (i + 1)%Z in
        looped <- (if self_detectLoops g && (i mod 10 =? 0)%Z
                   then _detectLoop g sx sy
                   else Ret false) ;;
        if looped : bool then Ret (sx, sy, used)
        else if Py.Qltb (inject_Z (self_maxLen g) / 2) (inject_Z i)
             then Ret (sx, sy, used)
             else half_loop fuel' g sign xmin xmax ymin ymax used x y i sx sy
      else Ret (sx, sy, used)
  end.

Definition half_fuel (g : Streamlines) : nat :=
  S (Z.to_nat (self_maxLen g / 2)).

(** [_makeHalfStreamline] *)
Definition _makeHalfStreamline (g : Streamlines) (used : mask)
           (x0 y0 : float) (sign : Z)
  : outcome (list float * list float * mask) :=
  xmin <- getitem (self_x g) 0 ;;
  xmax <- getitem (self_x g) (-1) ;;
  ymin <- getitem (self_y g) 0 ;;
  ymax <- getitem (self_y g) (-1) ;;
  half_loop (half_fuel g) g sign xmin xmax ymin ymax used x0 y0 0 [] [].

(** [_makeStreamline] *)
Definition _makeStreamline (g : Streamlines) (used : mask) (x0 y0 : float)
  : outcome (streamline * mask) :=
  '(sx, sy, used) <- _makeHalfStreamline g used x0 y0 1 ;;
  '(rx, ry, used) <- _makeHalfStreamline g used x0 y0 (-1) ;;
  let rx := rev rx in
  let ry := rev ry in
  Ret ((rx ++ [x0] ++ sx, ry ++ [y0] ++ sy), used).

(** Lines 89 and 92. *)
Definition seed (g : Streamlines) (used : mask) : outcome (float * float) :=
  let nz := Mask.nonzero_T (Mask.logical_not used) in
  nz0 <- getitem nz 0 ;;
  x0 <- getitem (self_x g) (Z.of_nat (snd nz0)) ;;
  y0 <- getitem (self_y g) (Z.of_nat (fst nz0)) ;;
  Ret (x0, y0).

(** The body of the [while] of lines 88-93. *)
Definition outer_body (g : Streamlines) (used : mask)
  : outcome (streamline * mask) :=
  '(x0, y0) <- seed g used ;;
  _makeStreamline g used x0 y0.

(** The [while] of lines 88-93. *)
Fixpoint main_loop (fuel : nat) (g : Streamlines) (used : mask)
         (streamlines : list streamline) : outcome (list streamline * mask) :=
  match fuel with
  | O => Running
  | S fuel' =>
      if negb (Mask.all used) then
        '(s, used) <- outer_body g used ;;
        main_loop fuel' g used (streamlines ++ [s])
      else Ret (streamlines, used)
  end.

(** [Streamlines.__init__] *)
Definition __init__ (fuel : nat) (X Y : ndarray) (U V : list (list float))
           (res : float) (spacing maxLen : Z) (detectLoops : bool)
  : outcome (list streamline * mask) :=
  g <- attrs X Y U V res spacing maxLen detectLoops ;;
  used <- border (self_u g) ;;
  used <- mark_all_still g used ;;
  main_loop fuel g used [].

End Generator.

(** ** Vocabulary of the statements on doubles *)


(** Strictly increasing coordinates.  Each one is below every later one:
    [<] on doubles is transitive, so this says no more than that each is
    below the next, and stated for all pairs it needs no law of the order. *)
Fixpoint increasing (l : list float) : bool :=
  match l with
  | [] => true
  | a :: l' => forallb (fun b => a <? b) l' && increasing l'
  end.

(** The index line 103 computes at the [k]-th coordinate of an axis whose
    step is [d]. *)
Definition node_index (l : list float) (d : float) (k : nat) : outcome Z :=
  int ((nth k l 0 - nth 0 l 0) / d).


(** ** Concrete runs on doubles *)

(** The uniform wind blowing east, [U = 1, V = 0].  In the runs below every
    interpolated [v] is [+0.0] and every interpolated [u] is positive, so
    every call of [np.arctan2] is on [(+0.0, u)] with [u > 0], where its
    value is [+0.0], and [np.cos] and [np.sin] are applied to [0.0] only,
    where they are [1.0] and [0.0]: on these arguments the functions of
    [east] are NumPy's.  ([np.hypot] is not called: [detectLoops] is
    off.) *)
Definition east : NumPy :=
  {| np_arctan2 := fun _ _ => 0;
     np_cos := fun _ => 1;
     np_sin := fun _ => 0;
     np_hypot := fun a _ => abs a |}.

Definition uniform (rows cols : nat) (f : float) : list (list float) :=
  repeat (repeat f cols) rows.

Definition axis3 : list float := [0; 1; 2].

(** [Streamlines([0, 1, 2], [0, 1, 2], np.ones((3, 3)), np.zeros((3, 3)),
    res=0.5)] and the object it builds. *)
Definition east_run (fuel : nat) : outcome (list streamline * mask) :=
  @__init__ east fuel (Arr1 axis3) (Arr1 axis3) (uniform 3 3 1) (uniform 3 3 0)
            0.5 2 2500 false.


(** The coordinates [-3, 0, 3] and the step [res = 0.9999999999999999], the
    double next below [1]. *)
Definition wide3 : list float := [-3; 0; 3].

Definition below_one : float := 0x1.fffffffffffffp-1.

(** [Streamlines([-3, 0, 3], [-3, 0, 3], np.ones((3, 3)), np.zeros((3, 3)),
    res=0.9999999999999999)] *)
Definition wide_run (fuel : nat) : outcome (list streamline * mask) :=
  @__init__ east fuel (Arr1 wide3) (Arr1 wide3) (uniform 3 3 1) (uniform 3 3 0)
            below_one 2 2500 false.

(** The object of that run. *)
Definition wide_object : Streamlines :=
  {| self_spacing := 2;
     self_detectLoops := false;
     self_maxLen := 2500;
     self_res := below_one;
     self_x := wide3;
     self_y := wide3;
     self_u := uniform 3 3 1;
     self_v := uniform 3 3 0;
     self_dx := 3;
     self_dy := 3;
     self_dr := 0x1.7ffffffffffffp+1 |}.

(** The point the first step of that run reaches from the seed [(0, 0)]:
    [x = 2.9999999999999996], the double next below [3]. *)
Definition below_three : float := 0x1.7ffffffffffffp+1.

(** The axis [0, 0.1, 0.2, 0.3, 0.4] as Python reads these literals. *)
Definition tenths : list float :=
  [0; 0x1.999999999999ap-4; 0x1.999999999999ap-3; 0x1.3333333333333p-2;
   0x1.999999999999ap-2].

(** [Streamlines([0, 1, 2], [0, 0.1, 0.2, 0.3, 0.4], np.ones((5, 3)),
    np.zeros((5, 3)), res=0.5, spacing=1)], the object it builds and the
    mask its seeding loop starts from. *)
Definition tenths_run (fuel : nat) : outcome (list streamline * mask) :=
  @__init__ east fuel (Arr1 axis3) (Arr1 tenths) (uniform 5 3 1) (uniform 5 3 0)
            0.5 1 2500 false.

Definition tenths_object : Streamlines :=
  {| self_spacing := 1;
     self_detectLoops := false;
     self_maxLen := 2500;
     self_res := 0.5;
     self_x := axis3;
     self_y := tenths;
     self_u := uniform 5 3 1;
     self_v := uniform 5 3 0;
     self_dx := 1;
     self_dy := 0x1.999999999999ap-4;
     self_dr := 0.5 * sqrt (1 * 0x1.999999999999ap-4) |}.

Definition ring5 : mask :=
  [[true; true; true]; [true; false; true]; [true; false; true];
   [true; false; true]; [true; true; true]].

(** The mask after the two turns of that run that mark a cell: the cell of
    the grid point [(1, 0.3)] is still unused. *)
Definition stuck5 : mask :=
  [[true; true; true]; [true; true; true]; [true; true; true];
   [true; false; true]; [true; true; true]].

End Double.

(** * Properties *)

(** ** Results *)

Lemma bind_Val {A B : Type} (c : result A) (k : A -> result B) (b : B) :
  bind c k = Val b -> exists a, c = Val a /\ k a = Val b.
Proof.
  destruct c as [a| |]; simpl; intros H; try discriminate.
  exists a; split; [reflexivity | exact H].
Qed.

Ltac bind_inv H :=
  let a := fresh "a" in
  let E := fresh "E" in
  apply bind_Val in H; destruct H as [a [E H]].

(** ** Indexing *)

Lemma Qltb_lt (a b : Q) : Py.Qltb a b = true <-> a < b.
Proof.
  unfold Py.Qltb. rewrite negb_true_iff.
  split; intros H.
  - apply Qnot_le_lt. intros Hle. apply Qle_bool_iff in Hle. congruence.
  - destruct (Qle_bool b a) eqn:E; [|reflexivity].
    apply Qle_bool_iff in E. apply Qle_not_lt in E. contradiction.
Qed.

Lemma Qltb_ge (a b : Q) : Py.Qltb a b = false <-> b <= a.
Proof.
  unfold Py.Qltb. rewrite negb_false_iff. apply Qle_bool_iff.
Qed.

Lemma index_nonneg (n : nat) (k : Z) :
  (0 <= k < Z.of_nat n)%Z -> Py.index n k = Some (Z.to_nat k).
Proof.
  intros H. unfold Py.index.
  destruct (Z.leb_spec 0 k); [|lia].
  destruct (Z.ltb_spec k (Z.of_nat n)); [|lia].
  reflexivity.
Qed.

Lemma index_nat (n k : nat) :
  (k < n)%nat -> Py.index n (Z.of_nat k) = Some k.
Proof.
  intros H. rewrite index_nonneg by lia. now rewrite Nat2Z.id.
Qed.

Lemma index_last (n : nat) : (0 < n)%nat -> Py.index n (-1) = Some (n - 1)%nat.
Proof.
  intros H. unfold Py.index.
  destruct (Z.leb_spec 0 (-1)); [lia|]. cbn [andb].
  destruct (Z.leb_spec (- Z.of_nat n) (-1)); [|lia].
  change (-1 <? 0)%Z with true. cbn [andb]. f_equal. lia.
Qed.

Lemma index_lt (n : nat) (k : Z) (r : nat) :
  Py.index n k = Some r -> (r < n)%nat.
Proof.
  unfold Py.index.
  destruct (Z.leb_spec 0 k); destruct (Z.ltb_spec k (Z.of_nat n));
    cbn [andb]; try (intros [= <-]; lia);
    destruct (Z.leb_spec (- Z.of_nat n) k); destruct (Z.ltb_spec k 0);
    cbn [andb]; try discriminate; intros [= <-]; lia.
Qed.

Lemma getitem_nat {A : Type} (l : list A) (k : nat) (d : A) :
  (k < length l)%nat -> Py.getitem l (Z.of_nat k) = Val (nth k l d).
Proof.
  intros H. unfold Py.getitem. rewrite index_nat by exact H.
  destruct (nth_error l k) eqn:E.
  - now rewrite (nth_error_nth _ _ d E).
  - apply nth_error_None in E. lia.
Qed.

Lemma getitem_nonneg {A : Type} (l : list A) (k : Z) (d : A) :
  (0 <= k < Z.of_nat (length l))%Z ->
  Py.getitem l k = Val (nth (Z.to_nat k) l d).
Proof.
  intros H. rewrite <- (Z2Nat.id k) at 1 by lia.
  apply getitem_nat. lia.
Qed.

Lemma getitem_first {A : Type} (l : list A) (d : A) :
  l <> [] -> Py.getitem l 0 = Val (nth 0 l d).
Proof.
  intros H. apply (getitem_nat l 0%nat d). destruct l; [congruence | simpl; lia].
Qed.

Lemma getitem_last {A : Type} (l : list A) (d : A) :
  l <> [] -> Py.getitem l (-1) = Val (last l d).
Proof.
  intros H. unfold Py.getitem.
  assert (Hn : (0 < length l)%nat) by (destruct l; [congruence | simpl; lia]).
  rewrite index_last by exact Hn.
  destruct (nth_error l (length l - 1)) eqn:E.
  - apply (nth_error_nth _ _ d) in E. rewrite <- E. f_equal.
    destruct (exists_last H) as [l' [a' ->]].
    rewrite last_last, length_app. simpl.
    rewrite app_nth2 by lia.
    replace (length l' + 1 - 1 - length l')%nat with 0%nat by lia. reflexivity.
  - apply nth_error_None in E. lia.
Qed.

Lemma getitem_Val_nonempty {A : Type} (l : list A) (k : Z) (a : A) :
  Py.getitem l k = Val a -> l <> [].
Proof.
  unfold Py.getitem. intros H ->. simpl in H.
  destruct (Py.index 0 k) eqn:E; [|discriminate].
  apply index_lt in E. lia.
Qed.

Lemma getitem_first_inv {A : Type} (l : list A) (a d : A) :
  Py.getitem l 0 = Val a -> a = nth 0 l d.
Proof.
  intros H. pose proof (getitem_Val_nonempty _ _ _ H) as Hne.
  rewrite (getitem_first l d Hne) in H. congruence.
Qed.

Lemma getitem_last_inv {A : Type} (l : list A) (a d : A) :
  Py.getitem l (-1) = Val a -> a = last l d.
Proof.
  intros H. pose proof (getitem_Val_nonempty _ _ _ H) as Hne.
  rewrite (getitem_last l d Hne) in H. congruence.
Qed.


Lemma mapi_from_length {A B : Type} (f : nat -> A -> B) (l : list A) (k : nat) :
  length (Py.mapi_from k f l) = length l.
Proof.
  revert k. induction l as [|a l IH]; intros k; simpl; [reflexivity|].
  now rewrite IH.
Qed.

Lemma mapi_from_Forall2 {A B : Type} (R : A -> B -> Prop)
      (f : nat -> A -> B) (l : list A) (k : nat) :
  (forall i a, R a (f i a)) -> Forall2 R l (Py.mapi_from k f l).
Proof.
  intros H. revert k. induction l as [|a l IH]; intros k; simpl; constructor; auto.
Qed.

Lemma mapi_from_nth {A B : Type} (f : nat -> A -> B) (l : list A)
      (k i : nat) (d : A) (e : B) :
  (i < length l)%nat ->
  nth i (Py.mapi_from k f l) e = f (k + i)%nat (nth i l d).
Proof.
  revert k i. induction l as [|a l IH]; intros k i Hi; simpl in *; [lia|].
  destruct i as [|i].
  - now rewrite Nat.add_0_r.
  - rewrite IH by lia. f_equal. lia.
Qed.

Lemma mapi_from_id {A : Type} (f : nat -> A -> A) (l : list A) (k : nat) :
  (forall i a, f i a = a) -> Py.mapi_from k f l = l.
Proof.
  intros H. revert k. induction l as [|a l IH]; intros k; simpl; [reflexivity|].
  now rewrite H, IH.
Qed.

(** ** The coverage mask only grows *)

Module MaskFacts.

Lemma row_le_refl (row : list bool) : Mask.row_le row row.
  Proof. unfold Mask.row_le. induction row; constructor; [tauto | assumption]. Qed.

Lemma row_le_trans (a b c : list bool) : Mask.row_le a b -> Mask.row_le b c -> Mask.row_le a c.
  Proof.
    unfold Mask.row_le. intros Hab. revert c.
    induction Hab as [|x y a b Hxy Hab IH]; intros c Hbc; inversion Hbc; subst;
      constructor; [tauto | now apply IH].
  Qed.

Lemma le_refl (m : mask) : Mask.le m m.
  Proof.
    unfold Mask.le. induction m; constructor; [apply row_le_refl | assumption].
  Qed.

Lemma le_trans (a b c : mask) : Mask.le a b -> Mask.le b c -> Mask.le a c.
  Proof.
    unfold Mask.le. intros Hab. revert c.
    induction Hab as [|x y a b Hxy Hab IH]; intros c Hbc; inversion Hbc; subst;
      constructor; [eapply row_le_trans; eassumption | now apply IH].
  Qed.

Lemma row_le_length (a b : list bool) : Mask.row_le a b -> length a = length b.
  Proof. induction 1; simpl; congruence. Qed.

Lemma le_shape (rows cols : nat) (m m' : mask) :
    Mask.le m m' -> Mask.shape rows cols m -> Mask.shape rows cols m'.
  Proof.
    intros Hle [Hr Hc]. split.
    - rewrite <- Hr. symmetry. eapply Forall2_length; eassumption.
    - clear Hr. induction Hle; constructor; inversion Hc; subst; auto.
      symmetry. now apply row_le_length.
  Qed.

Lemma row_le_nth (a b : list bool) (c : nat) :
    Mask.row_le a b -> nth c a true = true -> nth c b true = true.
  Proof.
    intros H. revert c. induction H; intros [|c]; simpl; auto.
  Qed.

Lemma le_cell (m m' : mask) (r c : nat) :
    Mask.le m m' -> Mask.cell m r c = true -> Mask.cell m' r c = true.
  Proof.
    unfold Mask.cell. intros H. revert r.
    induction H as [|row row' m m' Hrow Hm IH]; intros [|r]; simpl; auto.
    now apply row_le_nth.
  Qed.







  (** Every assignment to the mask stores [True]. *)
Lemma le_mapi_rows (f : nat -> list bool -> list bool) (m : mask) :
    (forall r row, Mask.row_le row (f r row)) -> Mask.le m (Py.mapi f m).
  Proof. intros H. apply mapi_from_Forall2. exact H. Qed.

Lemma row_le_mapi (f : nat -> bool -> bool) (row : list bool) :
    (forall c b, b = true -> f c b = true) -> Mask.row_le row (Py.mapi f row).
  Proof. intros H. apply mapi_from_Forall2. exact H. Qed.


Lemma le_set_row (m m' : mask) (k : Z) : Mask.set_row m k = Val m' -> Mask.le m m'.
  Proof.
    unfold Mask.set_row. destruct (Py.index _ _); [|discriminate].
    intros [= <-]. apply le_mapi_rows. intros r row.
    destruct (r =? n)%nat; [|apply row_le_refl].
    induction row; constructor; auto.
  Qed.

Lemma le_set_col (m m' : mask) (k : Z) : Mask.set_col m k = Val m' -> Mask.le m m'.
  Proof.
    unfold Mask.set_col. destruct (Py.index _ _); [|discriminate].
    intros [= <-]. clear. induction m as [|row m IH]; constructor; auto.
    apply row_le_mapi. intros c b ->. now destruct (c =? n)%nat.
  Qed.

Lemma le_set_cell (m m' : mask) (j i : Z) :
    Mask.set_cell m j i = Val m' -> Mask.le m m'.
  Proof.
    unfold Mask.set_cell.
    destruct (Py.index _ j); [|discriminate].
    destruct (Py.index _ i); [|discriminate].
    intros [= <-]. apply le_mapi_rows. intros r row.
    destruct (r =? n)%nat; [|apply row_le_refl].
    apply row_le_mapi. intros c b ->. now destruct (c =? n0)%nat.
  Qed.

End MaskFacts.

(** ** Marking a block *)


Lemma in_slice_empty (n : nat) (lo : Z) (k : nat) :
  Py.in_slice n lo (lo + 0) k = false.
Proof.
  unfold Py.in_slice. rewrite Z.add_0_r.
  destruct (Nat.leb_spec (Py.clip n lo) k); [|reflexivity].
  destruct (Nat.ltb_spec k (Py.clip n lo)); [lia|reflexivity].
Qed.


(** With [spacing = 0] line 120 assigns to an empty slice. *)
Lemma set_block_zero (m : mask) (j i : Z) : Mask.set_block m j i 0 = m.
Proof.
  unfold Mask.set_block, Py.mapi. apply mapi_from_id. intros r row.
  now rewrite in_slice_empty.
Qed.

(** ** The first unused cell *)

Lemma nonzero_row_scan (r : nat) (row : list bool) (c : nat) :
  hd_error (flat_map (fun p => p)
              (Py.mapi_from c (fun c (b : bool) => if b then [(r, c)] else [])
                            (map negb row)))
  = option_map (pair r) (scan_row row c).
Proof.
  revert c. induction row as [|b row IH]; intros c; simpl; [reflexivity|].
  destruct b; simpl; [apply IH | reflexivity].
Qed.

Lemma nonzero_row_nil (r : nat) (row : list bool) :
  scan_row row 0 = None -> Mask.nonzero_row r (map negb row) = [].
Proof.
  unfold Mask.nonzero_row, Py.mapi. generalize 0%nat.
  induction row as [|b row IH]; intros c; simpl; [reflexivity|].
  destruct b; simpl; [apply IH | discriminate].
Qed.

Lemma nonzero_scan (m : mask) (r : nat) :
  hd_error (flat_map (fun p => p)
              (Py.mapi_from r Mask.nonzero_row (Mask.logical_not m)))
  = scan_rows m r.
Proof.
  revert r. induction m as [|row m IH]; intros r; simpl; [reflexivity|].
  destruct (scan_row row 0) as [c|] eqn:E.
  - pose proof (nonzero_row_scan r row 0) as H. rewrite E in H. simpl in H.
    fold (Py.mapi (fun c (b : bool) => if b then [(r, c)] else []) (map negb row)) in H.
    fold (Mask.nonzero_row r (map negb row)) in H.
    destruct (Mask.nonzero_row r (map negb row)); [discriminate|].
    simpl in *. exact H.
  - rewrite (nonzero_row_nil r row E). simpl. apply IH.
Qed.

Lemma first_unused_nonzero (m : mask) :
  hd_error (Mask.nonzero_T (Mask.logical_not m)) = first_unused m.
Proof. apply nonzero_scan. Qed.

Lemma scan_row_spec (row : list bool) (c0 c : nat) :
  scan_row row c0 = Some c ->
  (c0 <= c < c0 + length row)%nat /\
  nth (c - c0) row true = false /\
  forall k, (k < c - c0)%nat -> nth k row true = true.
Proof.
  revert c0. induction row as [|b row IH]; intros c0; simpl; [discriminate|].
  destruct b.
  - intros H. apply IH in H. destruct H as [Hr [Hc Hk]].
    replace (c - c0)%nat with (S (c - S c0)) by lia.
    repeat split; try lia; [exact Hc|].
    intros [|k] Hlt; [reflexivity | apply Hk; lia].
  - intros [= <-]. rewrite Nat.sub_diag. repeat split; intros; lia.
Qed.

Lemma scan_row_None (row : list bool) (c0 : nat) :
  scan_row row c0 = None -> forall k, nth k row true = true.
Proof.
  revert c0. induction row as [|b row IH]; intros c0; simpl.
  - intros _ [|k]; reflexivity.
  - destruct b; [|discriminate]. intros H [|k]; [reflexivity|].
    eapply IH; eassumption.
Qed.

Lemma scan_rows_spec (m : mask) (r0 r c : nat) :
  scan_rows m r0 = Some (r, c) ->
  (r0 <= r < r0 + length m)%nat /\
  (c < length (nth (r - r0) m []))%nat /\
  Mask.cell m (r - r0) c = false /\
  forall r' c', row_major_lt (r', c') (r - r0, c)%nat -> Mask.cell m r' c' = true.
Proof.
  unfold Mask.cell, row_major_lt. revert r0.
  induction m as [|row m IH]; intros r0; simpl; [discriminate|].
  destruct (scan_row row 0) as [c1|] eqn:E.
  - intros [= <- <-]. apply scan_row_spec in E.
    rewrite Nat.sub_0_r in E. destruct E as [Hr [Hc Hk]].
    rewrite Nat.sub_diag. simpl.
    split; [lia|]. split; [lia|]. split; [exact Hc|].
    intros r' c' [H|[H1 H2]]; [lia|]. subst r'. now apply Hk.
  - intros H. apply IH in H. simpl in H. destruct H as [Hr [Hl [Hc Hk]]].
    replace (r - r0)%nat with (S (r - S r0)) by lia. simpl.
    split; [lia|]. split; [exact Hl|]. split; [exact Hc|].
    intros [|r'] c' H.
    + eapply scan_row_None; eassumption.
    + apply Hk. lia.
Qed.

Lemma first_unused_spec (m : mask) (r c : nat) :
  first_unused m = Some (r, c) ->
  (r < length m)%nat /\ (c < length (nth r m []))%nat /\
  Mask.cell m r c = false /\
  forall r' c', row_major_lt (r', c') (r, c) -> Mask.cell m r' c' = true.
Proof.
  intros H. apply scan_rows_spec in H. rewrite Nat.sub_0_r in H.
  destruct H as [Hr [Hl [Hc Hk]]]. repeat split; try lia; assumption.
Qed.

Lemma all_false_first_unused (m : mask) :
  Mask.all m = false -> exists r c, first_unused m = Some (r, c).
Proof.
  unfold first_unused, Mask.all. generalize 0%nat.
  induction m as [|row m IH]; intros r0; simpl; [discriminate|].
  intros H. destruct (scan_row row 0) as [c|] eqn:E; [eauto|].
  apply andb_false_iff in H. destruct H as [H|H]; [|now apply IH].
  exfalso. clear IH. revert E H. generalize 0%nat.
  induction row as [|b row IH]; intros c0; simpl; [discriminate|].
  destruct b; simpl; [apply IH | discriminate].
Qed.

(** ** Cell indices of a point inside the box *)










(** ** The object built by [__init__] *)

Section Interp.

Context {np : NumPy}.

Lemma attrs_constructed (X Y : ndarray) (U V : list (list Q)) (res : Q)
        (spacing maxLen : Z) (detectLoops : bool) (g : Streamlines) :
    attrs X Y U V res spacing maxLen detectLoops = Val g ->
    constructed g /\
    axis_x X = Val (self_x g) /\ axis_y Y = Val (self_y g) /\
    self_u g = U /\ self_v g = V /\ self_spacing g = spacing /\
    self_maxLen g = maxLen /\ self_detectLoops g = detectLoops /\
    self_res g = res.
  Proof.
    unfold attrs. intros H.
    apply bind_Val in H. destruct H as [x [Ex H]].
    apply bind_Val in H. destruct H as [y [Ey H]].
    apply bind_Val in H. destruct H as [xl [Exl H]].
    apply bind_Val in H. destruct H as [x0 [Ex0 H]].
    apply bind_Val in H. destruct H as [yl [Eyl H]].
    apply bind_Val in H. destruct H as [y0 [Ey0 H]].
    injection H as <-. simpl.
    rewrite (getitem_last_inv _ _ 0 Exl), (getitem_first_inv _ _ 0 Ex0),
      (getitem_last_inv _ _ 0 Eyl), (getitem_first_inv _ _ 0 Ey0).
    unfold constructed. simpl.
    pose proof (getitem_Val_nonempty _ _ _ Ex0).
    pose proof (getitem_Val_nonempty _ _ _ Ey0).
    repeat split; assumption.
  Qed.

Lemma attrs_Val (X Y : ndarray) (U V : list (list Q)) (res : Q)
        (spacing maxLen : Z) (detectLoops : bool) (x y : list Q) :
    axis_x X = Val x -> axis_y Y = Val y -> x <> [] -> y <> [] ->
    exists g, attrs X Y U V res spacing maxLen detectLoops = Val g /\
              self_x g = x /\ self_y g = y.
  Proof.
    intros Ex Ey Hx Hy. unfold attrs. rewrite Ex, Ey. simpl.
    rewrite (getitem_last x 0 Hx), (getitem_first x 0 Hx),
      (getitem_last y 0 Hy), (getitem_first y 0 Hy). simpl.
    eexists. split; [reflexivity|]. split; reflexivity.
  Qed.

Lemma inside_in_box (g : Streamlines) (x y : Q) :
    inside (nth 0 (self_x g) 0) (last (self_x g) 0)
           (nth 0 (self_y g) 0) (last (self_y g) 0) x y = true
    <-> in_box g x y.
  Proof.
    unfold inside, in_box. rewrite !andb_true_iff, !Qltb_lt. tauto.
  Qed.


  (** ** Reads of the field arrays *)

Lemma shape_row {A : Type} (rows cols : nat) (f : list (list A)) (r : nat) :
    Mask.shape rows cols f -> (r < rows)%nat -> length (nth r f []) = cols.
  Proof.
    intros [Hr Hc] H. rewrite Forall_forall in Hc. apply Hc.
    apply nth_In. lia.
  Qed.

Lemma shape_getitem2 (rows cols : nat) (f : list (list Q)) (j i : Z) :
    Mask.shape rows cols f ->
    (0 <= j < Z.of_nat rows)%Z -> (0 <= i < Z.of_nat cols)%Z ->
    Py.getitem2 f j i = Val (sample f j i).
  Proof.
    intros Hs Hj Hi. unfold Py.getitem2, sample.
    rewrite (getitem_nonneg f j []) by (destruct Hs as [-> _]; exact Hj).
    simpl. apply getitem_nonneg.
    rewrite (shape_row rows cols) by (try assumption; lia). exact Hi.
  Qed.


  (** ** [_interp] at a point that passes the guard *)


End Interp.

(** ** The loop of [_makeHalfStreamline] *)

Lemma over_spec (m k : Z) :
  Py.Qltb (inject_Z m / 2) (inject_Z k) = true <-> (m < 2 * k)%Z.
Proof.
  rewrite Qltb_lt. unfold Qlt, Qdiv, Qmult, Qinv, inject_Z.
  cbn [Qnum Qden Pos.mul]. lia.
Qed.

Section HalfLoop.

Context {np : NumPy}.
Variable g : Streamlines.
Variable sign : Z.
Variables xmin xmax ymin ymax : Q.

(** A proof rule for the loop: [I] holds whenever the guard is tested, [P]
    holds of every state the loop can return from. *)
Lemma half_loop_rule (I P : half_state) :
  (forall used x y i sx sy,
      I used x y i sx sy -> inside xmin xmax ymin ymax x y = false ->
      P used x y i sx sy) ->
  (forall used x y i sx sy,
      turn g sign xmin xmax ymin ymax I used x y i sx sy P) ->
  (forall used x y i sx sy,
      turn g sign xmin xmax ymin ymax I used x y i sx sy
           (fun used' x' y' i' sx' sy' =>
              (i' * 2 <= self_maxLen g)%Z -> I used' x' y' i' sx' sy')) ->
  forall fuel used x y i sx sy sx' sy' used',
    I used x y i sx sy ->
    half_loop fuel g sign xmin xmax ymin ymax used x y i sx sy
    = Val (sx', sy', used') ->
    exists x' y' i', P used' x' y' i' sx' sy'.
Proof.
  intros Hexit Hpost Hinv.
  induction fuel as [|fuel IH]; intros used x y i sx sy sx' sy' used' HI H;
    [discriminate|].
  simpl in H.
  destruct (inside xmin xmax ymin ymax x y) eqn:Ein.
  - destruct (_interp g used x y) as [[[u v] used1]| |] eqn:Eint;
      simpl in H; try discriminate.
    match type of H with
    | context [bind ?c _] => destruct c as [looped| |] eqn:El
    end; simpl in H; try discriminate.
    pose proof (Hpost used x y i sx sy u v used1 HI Ein Eint) as HP.
    pose proof (Hinv used x y i sx sy u v used1 HI Ein Eint) as HI'.
    simpl in HP, HI'.
    destruct looped; [injection H as <- <- <-; eauto|].
    match type of H with
    | context [Py.Qltb ?a ?b] => destruct (Py.Qltb a b) eqn:Eover
    end.
    + injection H as <- <- <-. eauto.
    + eapply IH; [|exact H]. apply HI'.
      destruct (Z_lt_le_dec (self_maxLen g) (2 * (i + 1))) as [Hlt|Hle]; [|lia].
      apply over_spec in Hlt. congruence.
  - injection H as <- <- <-. eauto.
Qed.



End HalfLoop.

(** ** [_interp] and the mask *)

Section Extension.

Context {np : NumPy}.
Variable g : Streamlines.

Lemma interp_used (used used' : mask) (x y u v : Q) :
  _interp g used x y = Val (u, v, used') ->
  used' = Mask.set_block used (Py.int (pos_j g y)) (Py.int (pos_i g x))
                         (self_spacing g).
Proof.
  unfold _interp. intros H.
  apply bind_Val in H. destruct H as [x0 [Ex H]].
  apply bind_Val in H. destruct H as [y0 [Ey H]].
  apply bind_Val in H. destruct H as [u' [Eu H]].
  apply bind_Val in H. destruct H as [v' [Ev H]].
  injection H as _ _ <-.
  rewrite (getitem_first_inv _ _ 0 Ex), (getitem_first_inv _ _ 0 Ey).
  reflexivity.
Qed.


Hypothesis Hg : constructed g.

Lemma makeHalf_loop (used : mask) (x0 y0 : Q) (sign : Z) :
  _makeHalfStreamline g used x0 y0 sign
  = box_loop g (half_fuel g) sign used x0 y0 0%Z [] [].
Proof.
  destruct Hg as (Hx & Hy & _). unfold _makeHalfStreamline.
  rewrite (getitem_first (self_x g) 0 Hx), (getitem_last (self_x g) 0 Hx),
    (getitem_first (self_y g) 0 Hy), (getitem_last (self_y g) 0 Hy).
  reflexivity.
Qed.


Lemma makeHalf_points (used used' : mask) (x0 y0 : Q) (sign : Z) (sx sy : list Q) :
  _makeHalfStreamline g used x0 y0 sign = Val (sx, sy, used') ->
  all_but_last_in_box g sx sy.
Proof.
  rewrite makeHalf_loop. intros H.
  pose (P := fun (_ : mask) (_ _ : Q) (_ : Z) (sx sy : list Q) =>
               all_but_last_in_box g sx sy).
  pose (I := fun (_ : mask) (x y : Q) (_ : Z) (sx sy : list Q) =>
               all_but_last_in_box g sx sy /\
               forall k, (k + 1 = length sx)%nat -> nth k sx 0 = x /\ nth k sy 0 = y).
  assert (Hstep : forall used x y i sx sy, turn g sign (nth 0 (self_x g) 0) (last (self_x g) 0)
                       (nth 0 (self_y g) 0) (last (self_y g) 0) I used x y i sx sy I).
  { unfold turn, I, all_but_last_in_box.
    intros m x y i px py u v m' [[Hlen Hin] Hlast] Hbox _.
    apply inside_in_box in Hbox.
    split; [split|].
    - rewrite !length_app. simpl. lia.
    - intros k Hk. rewrite length_app in Hk. simpl in Hk.
      rewrite !app_nth1 by lia.
      destruct (Nat.eq_dec (k + 1) (length px)) as [E|E].
      + destruct (Hlast k E) as [-> ->]. exact Hbox.
      + apply Hin. lia.
    - intros k Hk. rewrite length_app in Hk. simpl in Hk.
      assert (k = length px) by lia. subst k.
      rewrite app_nth2 by lia. rewrite Nat.sub_diag.
      rewrite Hlen. rewrite app_nth2 by lia. rewrite Nat.sub_diag.
      split; reflexivity. }
  unfold box_loop in H.
  eapply (half_loop_rule g sign _ _ _ _ I P) in H;
    [destruct H as (? & ? & ? & HP); exact HP | | | |].
  - unfold I, P. tauto.
  - intros m x y i px py u v m' HI Hbox Hint.
    exact (proj1 (Hstep m x y i px py u v m' HI Hbox Hint)).
  - intros m x y i px py u v m' HI Hbox Hint; simpl; intros _.
    exact (Hstep m x y i px py u v m' HI Hbox Hint).
  - unfold I, all_but_last_in_box. simpl. repeat split; intros; lia.
Qed.


(** From a seed that fails the guard the half-streamline is empty. *)
Lemma makeHalf_outside (used : mask) (x0 y0 : Q) (sign : Z) :
  ~ in_box g x0 y0 ->
  _makeHalfStreamline g used x0 y0 sign = Val ([], [], used).
Proof.
  intros Hout. rewrite makeHalf_loop. unfold box_loop, half_fuel. simpl.
  destruct (inside _ _ _ _ x0 y0) eqn:E; [|reflexivity].
  apply inside_in_box in E. contradiction.
Qed.


End Extension.

(** ** [_makeStreamline] *)

Section MakeStreamline.

Context {np : NumPy}.
Variable g : Streamlines.
Hypothesis Hg : constructed g.

Lemma in_box_dec (x y : Q) : {in_box g x y} + {~ in_box g x y}.
Proof.
  destruct (inside (nth 0 (self_x g) 0) (last (self_x g) 0)
                   (nth 0 (self_y g) 0) (last (self_y g) 0) x y) eqn:E.
  - left. now apply inside_in_box.
  - right. intros H. apply inside_in_box in H. congruence.
Qed.

Lemma makeStreamline_inv (used used' : mask) (x0 y0 : Q) (xs ys : list Q) :
  _makeStreamline g used x0 y0 = Val ((xs, ys), used') ->
  exists sx sy rx ry used1,
    _makeHalfStreamline g used x0 y0 1 = Val (sx, sy, used1) /\
    _makeHalfStreamline g used1 x0 y0 (-1) = Val (rx, ry, used') /\
    xs = rev rx ++ [x0] ++ sx /\ ys = rev ry ++ [y0] ++ sy.
Proof.
  unfold _makeStreamline. intros H.
  apply bind_Val in H. destruct H as [[[sx sy] used1] [E1 H]].
  apply bind_Val in H. destruct H as [[[rx ry] used2] [E2 H]].
  injection H as <- <- <-. exists sx, sy, rx, ry, used1. auto.
Qed.


Lemma makeStreamline_outside (used : mask) (x0 y0 : Q) :
  ~ in_box g x0 y0 ->
  _makeStreamline g used x0 y0 = Val (([x0], [y0]), used).
Proof.
  intros H. unfold _makeStreamline.
  rewrite (makeHalf_outside g Hg used x0 y0 1 H). simpl.
  rewrite (makeHalf_outside g Hg used x0 y0 (-1) H). reflexivity.
Qed.

(** The points of a streamline are the backward ones reversed, the seed and
    the forward ones: all of them but the two ends passed the guard. *)
Lemma glue_points (x0 y0 : Q) (rx ry sx sy : list Q) :
  in_box g x0 y0 ->
  all_but_last_in_box g rx ry -> all_but_last_in_box g sx sy ->
  forall k, (0 < k)%nat ->
            (k + 1 < length (rev rx ++ [x0] ++ sx))%nat ->
            in_box g (nth k (rev rx ++ [x0] ++ sx) 0)
                   (nth k (rev ry ++ [y0] ++ sy) 0).
Proof.
  intros Hseed [Hlr Hr] [Hls Hs] k Hk0 Hk1.
  rewrite length_app, length_rev in Hk1. simpl in Hk1.
  destruct (Nat.lt_ge_cases k (length rx)) as [Hlt|Hge].
  - rewrite !app_nth1 by (rewrite length_rev; lia).
    rewrite !rev_nth by lia. rewrite <- Hlr. apply Hr. lia.
  - rewrite (app_nth2 (rev rx)), (app_nth2 (rev ry))
      by (rewrite length_rev; lia).
    rewrite !length_rev, <- Hlr.
    destruct (k - length rx)%nat as [|k'] eqn:Ek; simpl; [exact Hseed|].
    apply Hs. lia.
Qed.

Lemma makeStreamline_points (used used' : mask) (x0 y0 : Q) (xs ys : list Q) :
  _makeStreamline g used x0 y0 = Val ((xs, ys), used') ->
  length xs = length ys /\
  forall k, (0 < k)%nat -> (k + 1 < length xs)%nat ->
            in_box g (nth k xs 0) (nth k ys 0).
Proof.
  intros H. destruct (in_box_dec x0 y0) as [Hin|Hout].
  - apply makeStreamline_inv in H.
    destruct H as (sx & sy & rx & ry & used1 & E1 & E2 & -> & ->).
    pose proof (makeHalf_points g Hg _ _ _ _ _ _ _ E1) as Hs.
    pose proof (makeHalf_points g Hg _ _ _ _ _ _ _ E2) as Hr.
    split.
    + rewrite !length_app, !length_rev. simpl.
      destruct Hs as [-> _]. destruct Hr as [-> _]. reflexivity.
    + now apply glue_points.
  - rewrite (makeStreamline_outside used x0 y0 Hout) in H.
    injection H as <- <- <-. split; [reflexivity|]. simpl. intros; lia.
Qed.



End MakeStreamline.

(** ** The length of a streamline *)

Section Length.

Context {np : NumPy}.
Variable g : Streamlines.
Hypothesis Hg : constructed g.

(** A half-streamline holds at most [floor(maxLen / 2) + 1] points (one
    point when [maxLen] is negative): line 167 tests the counter after the
    point is appended. *)
Lemma makeHalf_length (used used' : mask) (x0 y0 : Q) (sign : Z) (sx sy : list Q) :
  _makeHalfStreamline g used x0 y0 sign = Val (sx, sy, used') ->
  length sx = length sy /\
  (Z.of_nat (length sx) <= Z.max 0 (self_maxLen g / 2) + 1)%Z.
Proof.
  rewrite (makeHalf_loop g Hg). intros H.
  pose (P := fun (_ : mask) (_ _ : Q) (_ : Z) (sx sy : list Q) =>
               length sx = length sy /\
               (Z.of_nat (length sx) <= Z.max 0 (self_maxLen g / 2) + 1)%Z).
  pose (I := fun (_ : mask) (_ _ : Q) (i : Z) (sx sy : list Q) =>
               length sx = length sy /\ Z.of_nat (length sx) = i /\
               (i = 0 \/ i * 2 <= self_maxLen g)%Z).
  assert (Hdiv : forall i, (i * 2 <= self_maxLen g)%Z ->
                           (i <= self_maxLen g / 2)%Z).
  { intros i Hi. apply Z.div_le_lower_bound; lia. }
  unfold box_loop in H.
  eapply (half_loop_rule g sign _ _ _ _ I P) in H;
    [destruct H as (? & ? & ? & HP); exact HP | | | |].
  - unfold I, P. intros m x y i px py (Hl & Hi & Hb) _. split; [exact Hl|].
    destruct Hb as [Hb|Hb]; [lia|]. apply Hdiv in Hb. lia.
  - unfold turn, I, P. intros m x y i px py u v m' (Hl & Hi & Hb) _ _.
    rewrite !length_app. simpl. split; [lia|].
    destruct Hb as [Hb|Hb]; [lia|]. apply Hdiv in Hb. lia.
  - unfold turn, I. intros m x y i px py u v m' (Hl & Hi & Hb) _ _; simpl.
    intros Hnext. rewrite !length_app. simpl.
    split; [lia|]. split; [lia|]. right. exact Hnext.
  - unfold I. simpl. auto.
Qed.

(** A streamline holds at most [2 * floor(maxLen / 2) + 3] points. *)
Lemma makeStreamline_length (used used' : mask) (x0 y0 : Q) (xs ys : list Q) :
  _makeStreamline g used x0 y0 = Val ((xs, ys), used') ->
  (Z.of_nat (length xs) <= 2 * Z.max 0 (self_maxLen g / 2) + 3)%Z.
Proof.
  intros H. apply makeStreamline_inv in H.
  destruct H as (sx & sy & rx & ry & used1 & E1 & E2 & -> & ->).
  pose proof (makeHalf_length _ _ _ _ _ _ _ E1) as [_ Hs].
  pose proof (makeHalf_length _ _ _ _ _ _ _ E2) as [_ Hr].
  rewrite !length_app, length_rev. cbn [length]. lia.
Qed.

End Length.

(** ** The seed and one turn of the seeding loop *)

Section Outer.

Context {np : NumPy}.
Variable g : Streamlines.
Hypothesis Hg : constructed g.

Lemma seed_first_unused (used : mask) (r c : nat) :
  first_unused used = Some (r, c) ->
  seed g used = (x0 <- Py.getitem (self_x g) (Z.of_nat c) ;;
                 y0 <- Py.getitem (self_y g) (Z.of_nat r) ;;
                 Val (x0, y0)).
Proof.
  intros H. rewrite <- first_unused_nonzero in H. unfold seed.
  destruct (Mask.nonzero_T (Mask.logical_not used)) as [|p nz]; [discriminate|].
  injection H as ->.
  rewrite (getitem_first ((r, c) :: nz) (r, c)) by discriminate.
  reflexivity.
Qed.

Lemma ringed_le (rows cols : nat) (used used' : mask) :
  ringed rows cols used -> Mask.le used used' -> ringed rows cols used'.
Proof.
  intros [Hs Hr] Hle. split; [eapply MaskFacts.le_shape; eassumption|].
  intros r c Hc. apply Hr.
  destruct (Mask.cell used r c) eqn:E; [|reflexivity].
  rewrite (MaskFacts.le_cell _ _ _ _ Hle E) in Hc. discriminate.
Qed.



Lemma outer_body_points (used used' : mask) (xs ys : list Q) :
  outer_body g used = Val ((xs, ys), used') ->
  length xs = length ys /\
  forall k, (0 < k)%nat -> (k + 1 < length xs)%nat ->
            in_box g (nth k xs 0) (nth k ys 0).
Proof.
  unfold outer_body. intros H.
  apply bind_Val in H. destruct H as [[x0 y0] [_ H]].
  eapply makeStreamline_points; eassumption.
Qed.




End Outer.

(** ** The seeding loop *)

Section MainLoop.

Context {np : NumPy}.
Variable g : Streamlines.

(** A proof rule: [I] holds of the mask at every test of line 88, [P] of
    every streamline appended. *)
Lemma main_loop_rule (I : mask -> Prop) (P : streamline -> Prop) :
  (forall used s used',
      I used -> Mask.all used = false -> outer_body g used = Val (s, used') ->
      P s /\ I used') ->
  forall fuel used acc sls used',
    I used -> Forall P acc ->
    main_loop fuel g used acc = Val (sls, used') ->
    Forall P sls /\ I used' /\ Mask.all used' = true.
Proof.
  intros Hbody.
  induction fuel as [|fuel IH]; intros used acc sls used' HI Hacc H;
    [discriminate|].
  simpl in H. destruct (Mask.all used) eqn:Eall; simpl in H.
  - injection H as <- <-. auto.
  - apply bind_Val in H. destruct H as [[s used1] [Eb H]].
    destruct (Hbody used s used1 HI Eall Eb) as [HP HI1].
    apply (IH used1 (acc ++ [s])); try assumption.
    apply Forall_app. split; [exact Hacc | constructor; [exact HP | constructor]].
Qed.

(** More fuel does not change what the loop returns. *)
Lemma main_loop_mono (fuel fuel' : nat) (used : mask) (acc : list streamline)
      (r : list streamline * mask) :
  (fuel <= fuel')%nat ->
  main_loop fuel g used acc = Val r -> main_loop fuel' g used acc = Val r.
Proof.
  revert fuel' used acc.
  induction fuel as [|fuel IH]; intros fuel' used acc Hle H; [discriminate|].
  destruct fuel' as [|fuel']; [lia|].
  simpl in *. destruct (negb (Mask.all used)); [|exact H].
  destruct (outer_body g used) as [[s used1]| |]; simpl in *; try discriminate.
  apply IH; [lia | exact H].
Qed.

(** If every turn from a mask satisfying [I] returns with fewer unused
    cells, the loop returns once the fuel exceeds the number of unused
    cells, and it returns a full mask. *)
Lemma main_loop_terminates (I : mask -> Prop) :
  (forall used,
      I used -> Mask.all used = false ->
      exists s used', outer_body g used = Val (s, used') /\ I used' /\
                      (Mask.count false used' < Mask.count false used)%nat) ->
  forall fuel used acc,
    I used -> (Mask.count false used < fuel)%nat ->
    exists sls used', main_loop fuel g used acc = Val (sls, used') /\
                      Mask.all used' = true.
Proof.
  intros Hbody.
  induction fuel as [|fuel IH]; intros used acc HI Hf; [lia|].
  simpl. destruct (Mask.all used) eqn:Eall; simpl; [eauto|].
  destruct (Hbody used HI Eall) as (s & used1 & -> & HI1 & Hlt). simpl.
  apply IH; [exact HI1 | lia].
Qed.

End MainLoop.

(** ** The initial mask *)

Lemma zeros_shape (rows cols : nat) : Mask.shape rows cols (Mask.zeros rows cols).
Proof.
  unfold Mask.shape, Mask.zeros. split; [apply repeat_length|].
  apply Forall_forall. intros row H. apply repeat_spec in H. subst.
  apply repeat_length.
Qed.

Lemma ncols_shape {A : Type} (rows cols : nat) (m : list (list A)) :
  Mask.shape rows cols m -> (0 < rows)%nat -> Mask.ncols m = cols.
Proof.
  intros [Hr Hc] H. destruct m as [|row m]; simpl in *; [lia|].
  now inversion Hc.
Qed.

Lemma cell_outside (rows cols : nat) (m : mask) (r c : nat) :
  Mask.shape rows cols m -> (rows <= r \/ cols <= c)%nat ->
  Mask.cell m r c = true.
Proof.
  intros Hs H. unfold Mask.cell.
  destruct (Nat.lt_ge_cases r rows) as [Hr|Hr].
  - apply nth_overflow. rewrite (shape_row _ _ _ _ Hs Hr). lia.
  - rewrite (nth_overflow m []) by (destruct Hs as [-> _]; lia).
    now destruct c.
Qed.

Lemma set_row_cell (m : mask) (k : Z) (r : nat) :
  Py.index (Mask.nrows m) k = Some r ->
  exists m', Mask.set_row m k = Val m' /\ forall c, Mask.cell m' r c = true.
Proof.
  intros E. unfold Mask.set_row. rewrite E. eexists. split; [reflexivity|].
  intros c. unfold Mask.cell, Py.mapi.
  rewrite (mapi_from_nth _ m 0 r [] []) by (eapply index_lt; exact E).
  simpl. rewrite Nat.eqb_refl.
  generalize (nth r m []). clear. intros row. revert c.
  induction row as [|b row IH]; intros [|c]; simpl; auto.
Qed.

Lemma set_col_cell (m : mask) (k : Z) (c : nat) :
  Py.index (Mask.ncols m) k = Some c ->
  exists m', Mask.set_col m k = Val m' /\ forall r, Mask.cell m' r c = true.
Proof.
  intros E. unfold Mask.set_col. rewrite E. eexists. split; [reflexivity|].
  intros r. unfold Mask.cell.
  set (F := Py.mapi (fun (c' : nat) (b : bool) => if (c' =? c)%nat then true else b)).
  change (@nil bool) with (F []). rewrite map_nth. unfold F, Py.mapi.
  destruct (Nat.lt_ge_cases c (length (nth r m []))) as [Hc|Hc].
  - rewrite (mapi_from_nth _ _ 0 c true true) by exact Hc.
    simpl. now rewrite Nat.eqb_refl.
  - apply nth_overflow. now rewrite mapi_from_length.
Qed.

Section Init.

Context {np : NumPy}.

Lemma border_ringed (rows cols : nat) (U : list (list Q)) :
  Mask.shape rows cols U -> (1 <= rows)%nat -> (1 <= cols)%nat ->
  exists m, border U = Val m /\ ringed rows cols m.
Proof.
  intros HU Hr Hc. unfold border.
  assert (Hn : Mask.nrows U = rows) by (destruct HU; assumption).
  rewrite Hn, (ncols_shape rows cols U HU) by lia.
  pose proof (zeros_shape rows cols) as H0.
  set (m0 := Mask.zeros rows cols) in *.
  assert (Hi0 : forall m : mask, Mask.shape rows cols m ->
                          Py.index (Mask.nrows m) 0 = Some 0%nat).
  { intros m [Hm _]. unfold Mask.nrows. rewrite Hm.
    apply (index_nat rows 0). lia. }
  assert (Hi1 : forall m : mask, Mask.shape rows cols m ->
                          Py.index (Mask.nrows m) (-1) = Some (rows - 1)%nat).
  { intros m [Hm _]. unfold Mask.nrows. rewrite Hm. apply index_last. lia. }
  assert (Hj0 : forall m : mask, Mask.shape rows cols m ->
                          Py.index (Mask.ncols m) 0 = Some 0%nat).
  { intros m Hm. rewrite (ncols_shape rows cols m Hm) by lia.
    apply (index_nat cols 0). lia. }
  assert (Hj1 : forall m : mask, Mask.shape rows cols m ->
                          Py.index (Mask.ncols m) (-1) = Some (cols - 1)%nat).
  { intros m Hm. rewrite (ncols_shape rows cols m Hm) by lia.
    apply index_last. lia. }
  destruct (set_row_cell m0 0 _ (Hi0 m0 H0)) as (m1 & E1 & C1).
  pose proof (MaskFacts.le_set_row _ _ _ E1) as L1.
  pose proof (MaskFacts.le_shape _ _ _ _ L1 H0) as H1.
  destruct (set_row_cell m1 (-1) _ (Hi1 m1 H1)) as (m2 & E2 & C2).
  pose proof (MaskFacts.le_set_row _ _ _ E2) as L2.
  pose proof (MaskFacts.le_shape _ _ _ _ L2 H1) as H2.
  destruct (set_col_cell m2 0 _ (Hj0 m2 H2)) as (m3 & E3 & C3).
  pose proof (MaskFacts.le_set_col _ _ _ E3) as L3.
  pose proof (MaskFacts.le_shape _ _ _ _ L3 H2) as H3.
  destruct (set_col_cell m3 (-1) _ (Hj1 m3 H3)) as (m4 & E4 & C4).
  pose proof (MaskFacts.le_set_col _ _ _ E4) as L4.
  pose proof (MaskFacts.le_shape _ _ _ _ L4 H3) as H4.
  exists m4. rewrite E1. simpl. rewrite E2. simpl. rewrite E3. simpl.
  split; [exact E4|]. split; [exact H4|].
  intros r c Hcell.
  assert (Hin : (r < rows /\ c < cols)%nat).
  { destruct (Nat.lt_ge_cases r rows); destruct (Nat.lt_ge_cases c cols);
      try (split; assumption);
      rewrite (cell_outside rows cols m4 r c H4) in Hcell by lia; discriminate. }
  assert (Hr0 : r <> 0%nat).
  { intros ->. specialize (C1 c).
    apply (MaskFacts.le_cell _ _ _ _ L2) in C1.
    apply (MaskFacts.le_cell _ _ _ _ L3) in C1.
    apply (MaskFacts.le_cell _ _ _ _ L4) in C1. congruence. }
  assert (Hr1 : r <> (rows - 1)%nat).
  { intros ->. specialize (C2 c).
    apply (MaskFacts.le_cell _ _ _ _ L3) in C2.
    apply (MaskFacts.le_cell _ _ _ _ L4) in C2. congruence. }
  assert (Hc0 : c <> 0%nat).
  { intros ->. specialize (C3 r).
    apply (MaskFacts.le_cell _ _ _ _ L4) in C3. congruence. }
  assert (Hc1 : c <> (cols - 1)%nat).
  { intros ->. specialize (C4 r). congruence. }
  lia.
Qed.

Lemma for_each_inv {S : Type} (I : S -> Prop) (ks : list nat)
      (body : nat -> S -> result S) (s : S) :
  (forall k s, In k ks -> I s -> exists s', body k s = Val s' /\ I s') ->
  I s -> exists s', for_each ks body s = Val s' /\ I s'.
Proof.
  revert s. induction ks as [|k ks IH]; intros s Hbody HI; simpl; [eauto|].
  destruct (Hbody k s (or_introl eq_refl) HI) as (s1 & -> & HI1). simpl.
  apply IH; [|exact HI1]. intros k' s' Hin. apply Hbody. now right.
Qed.

Lemma for_each_le (ks : list nat) (body : nat -> mask -> result mask)
      (m m' : mask) :
  (forall k a b, body k a = Val b -> Mask.le a b) ->
  for_each ks body m = Val m' -> Mask.le m m'.
Proof.
  intros Hbody. revert m. induction ks as [|k ks IH]; intros m H; simpl in H.
  - injection H as <-. apply MaskFacts.le_refl.
  - apply bind_Val in H. destruct H as [m1 [E H]].
    eapply MaskFacts.le_trans; [eapply Hbody; exact E | apply IH; exact H].
Qed.

Lemma mark_still_le (g : Streamlines) (i j : nat) (m m' : mask) :
  mark_still g i j m = Val m' -> Mask.le m m'.
Proof.
  unfold mark_still. intros H.
  apply bind_Val in H. destruct H as [uji [_ H]].
  destruct (Qeq_bool uji 0); [|injection H as <-; apply MaskFacts.le_refl].
  apply bind_Val in H. destruct H as [vji [_ H]].
  destruct (Qeq_bool vji 0); [|injection H as <-; apply MaskFacts.le_refl].
  eapply MaskFacts.le_set_cell; exact H.
Qed.

Lemma mark_all_still_le (g : Streamlines) (m m' : mask) :
  mark_all_still g m = Val m' -> Mask.le m m'.
Proof.
  unfold mark_all_still, for_range. apply for_each_le.
  intros i a b. apply for_each_le. intros j. apply mark_still_le.
Qed.

Lemma mark_still_Val (g : Streamlines) (i j : nat) (m : mask) :
  fits g ->
  Mask.shape (length (self_y g)) (length (self_x g)) m ->
  (i < length (self_x g))%nat -> (j < length (self_y g))%nat ->
  exists m', mark_still g i j m = Val m'.
Proof.
  intros [Hu Hv] Hm Hi Hj. unfold mark_still.
  rewrite (shape_getitem2 _ _ _ _ _ Hu) by lia. simpl.
  destruct (Qeq_bool _ 0); [|eauto].
  rewrite (shape_getitem2 _ _ _ _ _ Hv) by lia. simpl.
  destruct (Qeq_bool _ 0); [|eauto].
  unfold Mask.set_cell.
  rewrite (ncols_shape _ _ m Hm) by lia.
  destruct Hm as [Hr _]. unfold Mask.nrows. rewrite Hr.
  rewrite !index_nat by assumption. eauto.
Qed.

Lemma mark_all_still_Val (g : Streamlines) (m : mask) :
  fits g ->
  Mask.shape (length (self_y g)) (length (self_x g)) m ->
  exists m', mark_all_still g m = Val m'.
Proof.
  intros Hfit Hm.
  pose (I := fun a : mask => Mask.le m a).
  assert (Hshape : forall a, I a ->
            Mask.shape (length (self_y g)) (length (self_x g)) a).
  { intros a Ha. eapply MaskFacts.le_shape; eassumption. }
  unfold mark_all_still, for_range.
  destruct (for_each_inv I (seq 0 (length (self_x g)))
              (fun i => for_each (seq 0 (length (self_y g))) (mark_still g i)) m)
    as (m' & E & _); [| apply MaskFacts.le_refl | eauto].
  intros i a Hi Ha. apply in_seq in Hi.
  apply (for_each_inv I); [|exact Ha].
  intros j b Hj Hb. apply in_seq in Hj.
  destruct (mark_still_Val g i j b Hfit (Hshape b Hb)) as [b' E]; try lia.
  exists b'. split; [exact E|].
  unfold I in *. eapply MaskFacts.le_trans; [exact Hb|].
  eapply mark_still_le; exact E.
Qed.

(** What [__init__] hands to its loop on arrays of the shape of the grid. *)
Lemma init_mask (g : Streamlines) :
  fits g -> (1 <= length (self_x g))%nat -> (1 <= length (self_y g))%nat ->
  exists m used,
    border (self_u g) = Val m /\ mark_all_still g m = Val used /\
    ringed (length (self_y g)) (length (self_x g)) used.
Proof.
  intros Hfit Hx Hy.
  destruct (border_ringed _ _ (self_u g) (proj1 Hfit) Hy Hx) as (m & Eb & Hring).
  destruct (mark_all_still_Val g m Hfit (proj1 Hring)) as (used & Em).
  exists m, used. split; [exact Eb|]. split; [exact Em|].
  eapply ringed_le; [exact Hring|]. eapply mark_all_still_le; exact Em.
Qed.

End Init.

(** ** Sizes *)


Lemma all_true_cells (m : mask) :
  (forall r c, Mask.cell m r c = true) -> Mask.all m = true.
Proof.
  intros H. destruct (Mask.all m) eqn:E; [reflexivity|].
  destruct (all_false_first_unused m E) as (r & c & Hf).
  apply first_unused_spec in Hf. destruct Hf as (_ & _ & Hc & _).
  rewrite H in Hc. discriminate.
Qed.

(** * The class on doubles: the mask and the two loops

    The properties below are about [Double]: they hold of the rounded
    arithmetic, whatever the four NumPy functions return. *)

Section OnDoubles.

Import PrimFloat.

Context {np : Double.NumPy}.















(** ** The loop of [_makeHalfStreamline] on doubles *)

Section HalfLoopD.

Variable g : Double.Streamlines.
Variable sign : Z.
Variables xmin xmax ymin ymax : float.





End HalfLoopD.

(** ** The two halves and the seed on doubles *)

Section StreamlineD.

Variable g : Double.Streamlines.











End StreamlineD.

(** ** Coordinates on doubles *)





(** ** One turn of the seeding loop on doubles *)


(** ** The seeding loop on doubles *)

Section MainLoopD.

Variable g : Double.Streamlines.



(** A turn that returns the mask it found, not full, is taken for ever. *)
Lemma dstuck_loop (used : mask) (s : Double.streamline) :
  Mask.all used = false ->
  Double.outer_body g used = Double.Ret (s, used) ->
  forall fuel acc, Double.main_loop fuel g used acc = Double.Running.
Proof.
  intros Hall Hb. induction fuel as [|fuel IH]; intros acc; [reflexivity|].
  cbn [Double.main_loop]. rewrite Hall. cbn [negb]. rewrite Hb.
  cbn [Double.bind]. apply IH.
Qed.

End MainLoopD.

(** ** The initial mask on doubles *)









End OnDoubles.

(** * The claims *)

(** Facts about the concrete objects, used by the examples below. *)
Lemma east3_constructed (x y : list Q) (spacing : Z) :
  x <> [] -> y <> [] -> constructed (east3 x y spacing).
Proof. intros Hx Hy. unfold constructed. simpl. auto. Defined.


Lemma axis3_nonempty : axis3 <> [].
Proof. discriminate. Defined.

(** C7: whenever the mask is not full, the seed of the next streamline is
    the grid point [(x[col], y[row])] of the first unused cell
    [(row, col)] in row-major order, rows outside and columns inside: the
    cell is unused and every cell before it in that order is used. *)
Theorem seed_is_first_unused (g : Streamlines) (used : mask) :
  Mask.all used = false ->
  exists row col,
    hd_error (Mask.nonzero_T (Mask.logical_not used)) = Some (row, col) /\
    first_unused used = Some (row, col) /\
    Mask.cell used row col = false /\
    (forall r c, row_major_lt (r, c) (row, col) -> Mask.cell used r c = true) /\
    seed g used = (x0 <- Py.getitem (self_x g) (Z.of_nat col) ;;
                   y0 <- Py.getitem (self_y g) (Z.of_nat row) ;;
                   Val (x0, y0)).
Proof.
  intros Hall.
  destruct (all_false_first_unused used Hall) as (r & c & E).
  exists r, c.
  pose proof (first_unused_spec used r c E) as (_ & _ & Hc & Hbefore).
  split; [rewrite first_unused_nonzero; exact E|].
  split; [exact E|]. split; [exact Hc|]. split; [exact Hbefore|].
  now apply seed_first_unused.
Qed.

Lemma seed_is_first_unused_witness :
  exists row col, first_unused ring3 = Some (row, col) /\
                  seed (east3 axis3 axis3 2) ring3 = Val (1, 1).
Proof.
  destruct (seed_is_first_unused (east3 axis3 axis3 2) ring3 eq_refl)
    as (row & col & _ & E & _ & _ & Es).
  exists row, col. split; [exact E|].
  rewrite Es. injection E as <- <-. reflexivity.
Defined.

(** What [__init__] does before its loop. *)
Lemma init_inv {np : NumPy} (fuel : nat) (X Y : ndarray) (U V : list (list Q))
      (res : Q) (spacing maxLen : Z) (detectLoops : bool)
      (r : list streamline * mask) :
  __init__ fuel X Y U V res spacing maxLen detectLoops = Val r ->
  exists g m used,
    attrs X Y U V res spacing maxLen detectLoops = Val g /\
    border (self_u g) = Val m /\ mark_all_still g m = Val used /\
    main_loop fuel g used [] = Val r.
Proof.
  unfold __init__. intros H.
  apply bind_Val in H. destruct H as [g [Eg H]].
  apply bind_Val in H. destruct H as [m [Em H]].
  apply bind_Val in H. destruct H as [used [Eu H]].
  exists g, m, used. auto.
Qed.

Lemma init_mono {np : NumPy} (fuel fuel' : nat) (X Y : ndarray)
      (U V : list (list Q)) (res : Q) (spacing maxLen : Z) (detectLoops : bool)
      (r : list streamline * mask) :
  (fuel <= fuel')%nat ->
  __init__ fuel X Y U V res spacing maxLen detectLoops = Val r ->
  __init__ fuel' X Y U V res spacing maxLen detectLoops = Val r.
Proof.
  intros Hle H. apply init_inv in H.
  destruct H as (g & m & used & Eg & Em & Eu & H).
  unfold __init__. rewrite Eg. simpl. rewrite Em. simpl. rewrite Eu. simpl.
  eapply main_loop_mono; eassumption.
Qed.

Lemma east_run_2 : east_run 2 = Val east_lines.
Proof. vm_compute. reflexivity. Defined.

Lemma east_run_5 : east_run 5 = Val east_lines.
Proof. vm_compute. reflexivity. Defined.

(** C2, as the code has it: in every streamline of the output, every point
    other than the two ends of the polyline lies strictly inside the
    bounding box of the grid.  (The ends are the last points of the two
    halves: line 159 appends the point before line 153 tests it.) *)
Theorem streamline_points_inside {np : NumPy} (X Y : ndarray)
        (U V : list (list Q)) (res : Q) (spacing maxLen : Z)
        (detectLoops : bool) (g : Streamlines) (fuel : nat)
        (sls : list streamline) (used : mask) :
  attrs X Y U V res spacing maxLen detectLoops = Val g ->
  __init__ fuel X Y U V res spacing maxLen detectLoops = Val (sls, used) ->
  Forall (fun s : streamline =>
            length (fst s) = length (snd s) /\
            forall k, (0 < k)%nat -> (k + 1 < length (fst s))%nat ->
                      in_box g (nth k (fst s) 0) (nth k (snd s) 0)) sls.
Proof.
  intros Eg H. apply init_inv in H.
  destruct H as (g' & m & used0 & Eg' & _ & _ & H).
  rewrite Eg in Eg'. injection Eg' as <-.
  pose proof (attrs_constructed _ _ _ _ _ _ _ _ _ Eg) as (Hg & _).
  eapply (main_loop_rule g (fun _ => True)) in H.
  - exact (proj1 H).
  - intros m1 [xs ys] m2 _ _ Hb. split; [|exact I].
    simpl. eapply outer_body_points; eassumption.
  - exact I.
  - constructor.
Qed.

Lemma east3_attrs :
  @attrs east (Arr1 axis3) (Arr1 axis3) (uniform 3 3 1) (uniform 3 3 0)
         (1 # 2) 2 2500 false = Val (east3 axis3 axis3 2).
Proof. vm_compute. reflexivity. Defined.

Lemma streamline_points_inside_witness :
  Forall (fun s : streamline =>
            length (fst s) = length (snd s) /\
            forall k, (0 < k)%nat -> (k + 1 < length (fst s))%nat ->
                      in_box (east3 axis3 axis3 2)
                             (nth k (fst s) 0) (nth k (snd s) 0))
         (fst east_lines).
Proof.
  exact (@streamline_points_inside east (Arr1 axis3) (Arr1 axis3)
           (uniform 3 3 1) (uniform 3 3 0) (1 # 2) 2 2500 false
           (east3 axis3 axis3 2) 2 (fst east_lines) (snd east_lines)
           east3_attrs east_run_2).
Defined.

(** C2 as stated fails: the one streamline of the uniform wind on the three
    by three grid, [x = 0, 0.5, 1, 1.5, 2] at [y = 1], ends exactly on the
    bounding box, at [x = 2 = xmax] (and starts on it, at [x = 0]). *)
Lemma streamline_ends_on_box :
  exists sls used s,
    east_run 2 = Val (sls, used) /\ In s sls /\
    last (fst s) 0 == last axis3 0 /\
    ~ in_box (east3 axis3 axis3 2) (last (fst s) 0) (last (snd s) 0).
Proof.
  exists (fst east_lines), (snd east_lines), (hd ([], []) (fst east_lines)).
  split; [exact east_run_2|]. split; [left; reflexivity|].
  split; [reflexivity|].
  intros [[_ H] _]. vm_compute in H. discriminate.
Qed.




Lemma ring3_initial (x y : list Q) (spacing : Z) :
  length x = 3%nat -> length y = 3%nat ->
  (used <- @border (self_u (east3 x y spacing)) ;;
   mark_all_still (east3 x y spacing) used) = Val ring3.
Proof.
  intros Hx Hy. unfold mark_all_still. simpl self_x. simpl self_y.
  rewrite Hx, Hy. vm_compute. reflexivity.
Qed.


(** A turn that returns the mask it found, not full, is taken for ever. *)
Lemma stuck_loop {np : NumPy} (g : Streamlines) (used : mask) (s : streamline) :
  Mask.all used = false -> outer_body g used = Val (s, used) ->
  forall fuel acc, main_loop fuel g used acc = OutOfFuel.
Proof.
  intros Hall Hb. induction fuel as [|fuel IH]; intros acc; [reflexivity|].
  cbn [main_loop]. rewrite Hall. cbn [negb]. rewrite Hb. cbn [bind]. apply IH.
Qed.







Lemma unspaced_body :
  exists s, @outer_body east (east3 axis3 axis3 0) ring3 = Val (s, ring3).
Proof. eexists. vm_compute. reflexivity. Qed.

Lemma unspaced_run_loop (fuel : nat) : unspaced_run fuel = OutOfFuel.
Proof.
  unfold unspaced_run, __init__.
  assert (Ea : @attrs east (Arr1 axis3) (Arr1 axis3) (uniform 3 3 1)
                      (uniform 3 3 0) (1 # 2) 0 2500 false
               = Val (east3 axis3 axis3 0)) by (vm_compute; reflexivity).
  rewrite Ea. cbn [bind].
  pose proof (ring3_initial axis3 axis3 0 eq_refl eq_refl) as H.
  destruct (border (self_u (east3 axis3 axis3 0))) as [m| |];
    cbn [bind] in *; try discriminate.
  rewrite H. destruct unspaced_body as [s Hs].
  exact (@stuck_loop east (east3 axis3 axis3 0) ring3 s eq_refl Hs fuel []).
Qed.

(** C8 as stated fails: nothing is validated.  On a grid with a single x
    coordinate construction returns normally, with no streamline; with
    [spacing = 0] it raises nothing either and the seeding loop never
    returns. *)
Lemma degenerate_inputs_accepted :
  column_run 1 = Val ([], [[true]; [true]; [true]]) /\
  ~ exists fuel, unspaced_run fuel <> OutOfFuel.
Proof.
  split; [vm_compute; reflexivity|].
  intros [fuel H]. apply H. apply unspaced_run_loop.
Qed.

(** C8, as the code has it: [__init__] validates nothing.  On a grid with a
    single coordinate on an axis (and arrays of its shape) every cell is on
    the border ring, so construction returns at once, with no streamline
    and a full mask, and raises no error; with [spacing = 0] the value is
    neither rejected nor replaced by [1]: line 120 assigns to an empty
    slice and [_interp] returns the mask it found. *)
Theorem degenerate_inputs_not_validated {np : NumPy} :
  (forall (X Y : ndarray) (U V : list (list Q)) (res : Q)
          (spacing maxLen : Z) (detectLoops : bool) (x y : list Q) (fuel : nat),
      axis_x X = Val x -> axis_y Y = Val y ->
      (length x = 1 \/ length y = 1)%nat ->
      (1 <= length x)%nat -> (1 <= length y)%nat ->
      Mask.shape (length y) (length x) U ->
      Mask.shape (length y) (length x) V ->
      exists used,
        __init__ (S fuel) X Y U V res spacing maxLen detectLoops
        = Val ([], used) /\ Mask.all used = true) /\
  (forall (g : Streamlines) (used used' : mask) (x y u v : Q),
      self_spacing g = 0%Z ->
      _interp g used x y = Val (u, v, used') -> used' = used).
Proof.
  split.
  - intros X Y U V res spacing maxLen detectLoops x y fuel
           Ex Ey Hone Hnx Hny HU HV.
    assert (Hxne : x <> []) by (destruct x; [simpl in Hnx; lia | discriminate]).
    assert (Hyne : y <> []) by (destruct y; [simpl in Hny; lia | discriminate]).
    destruct (attrs_Val X Y U V res spacing maxLen detectLoops x y
                        Ex Ey Hxne Hyne) as (g & Eg & Egx & Egy).
    pose proof (attrs_constructed _ _ _ _ _ _ _ _ _ Eg)
      as (Hg & _ & _ & HgU & HgV & _).
    assert (Hfit : fits g) by (unfold fits; rewrite Egx, Egy, HgU, HgV; auto).
    destruct (init_mask g Hfit) as (m & used0 & Em & Eu & Hring);
      [rewrite Egx; lia | rewrite Egy; lia |].
    assert (Hall : Mask.all used0 = true).
    { apply all_true_cells. intros r c.
      destruct (Mask.cell used0 r c) eqn:E; [reflexivity|].
      destruct Hring as [_ Hr]. specialize (Hr r c E).
      rewrite Egx, Egy in Hr. lia. }
    exists used0. unfold __init__. rewrite Eg. cbn [bind]. rewrite Em.
    cbn [bind]. rewrite Eu. cbn [bind main_loop]. rewrite Hall.
    split; reflexivity.
  - intros g used used' x y u v Hs H.
    rewrite (interp_used _ _ _ _ _ _ _ H), Hs. apply set_block_zero.
Qed.

Lemma degenerate_inputs_not_validated_witness :
  (exists used, column_run 1 = Val ([], used) /\ Mask.all used = true) /\
  (forall used' u v,
      _interp (east3 axis3 axis3 0) ring3 1 1 = Val (u, v, used') ->
      used' = ring3).
Proof.
  assert (HU : Mask.shape 3 1 (uniform 3 1 1))
    by (split; [reflexivity | repeat constructor]).
  assert (HV : Mask.shape 3 1 (uniform 3 1 0))
    by (split; [reflexivity | repeat constructor]).
  split.
  - exact (proj1 (@degenerate_inputs_not_validated east)
             (Arr1 [0]) (Arr1 axis3) (uniform 3 1 1) (uniform 3 1 0)
             (1 # 2) 2%Z 2500%Z false [0] axis3 0%nat eq_refl eq_refl
             (or_introl eq_refl) (le_n 1) (proj1 (Nat.leb_le 1 3) eq_refl)
             HU HV).
  - intros used' u v.
    exact (proj2 (@degenerate_inputs_not_validated east)
             (east3 axis3 axis3 0) ring3 used' 1 1 u v eq_refl).
Defined.

(** C3: the code breaks the cap.  With [maxLen = 4] (and [res = 0.125]) the
    one streamline of the uniform wind on the three by three grid has seven
    points: three steps backward, the seed, three steps forward, each half
    leaving its loop only when its counter reaches [3 > maxLen / 2]. *)
Theorem short_run_exceeds_maxLen :
  exists xs ys used,
    short_run 2 = Val ([(xs, ys)], used) /\
    length xs = 7%nat /\ length ys = 7%nat /\
    (4 < Z.of_nat (length xs))%Z.
Proof.
  exists (fst (hd ([], []) (fst short_lines))),
         (snd (hd ([], []) (fst short_lines))), (snd short_lines).
  split; [vm_compute; reflexivity|].
  split; [reflexivity|]. split; [reflexivity|]. reflexivity.
Qed.

(** ** The claims that rounding touches, on doubles *)

Section ClaimsOnDoubles.

Import PrimFloat.



Lemma wide_object_attrs :
  Double.attrs (Double.Arr1 Double.wide3) (Double.Arr1 Double.wide3)
               (Double.uniform 3 3 1%float) (Double.uniform 3 3 0%float)
               Double.below_one 2 2500 false
  = Double.Ret Double.wide_object.
Proof. vm_compute. reflexivity. Qed.

Lemma wide_initial :
  Double.bind (Double.border (Double.self_u Double.wide_object))
              (Double.mark_all_still Double.wide_object)
  = Double.Ret ring3.
Proof. vm_compute. reflexivity. Qed.

Lemma wide_body :
  @Double.outer_body Double.east Double.wide_object ring3
  = Double.Raise Double.IndexError.
Proof. vm_compute. reflexivity. Qed.

(** C5: the code breaks the claim on doubles.  On the grid [x = y = -3, 0,
    3] with three by three arrays, the point [(2.9999999999999996, 0)] is
    strictly inside the bounding box, and [_interp] returns no weighted sum
    there: the difference [x - x[0]] rounds to [6.0], line 103 computes
    [i = 2], the last column, and the read of [u[1, 3]] raises
    [IndexError], whatever the mask. *)
Theorem interp_raises_inside_box :
  Double.inside (nth 0 Double.wide3 0%float) (last Double.wide3 0%float)
                (nth 0 Double.wide3 0%float) (last Double.wide3 0%float)
                Double.below_three 0%float = true /\
  (Double.below_three - nth 0 Double.wide3 0%float)%float = 6%float /\
  Double.node_index [(-3)%float; Double.below_three] 3%float 1 = Double.Ret 2%Z /\
  Py.getitem2 (Double.self_u Double.wide_object) 1 (2 + 1) = IndexError /\
  forall used,
    Double._interp Double.wide_object used Double.below_three 0%float
    = Double.Raise Double.IndexError.
Proof.
  split; [vm_compute; reflexivity|].
  split; [vm_compute; reflexivity|].
  split; [vm_compute; reflexivity|].
  split; [vm_compute; reflexivity|].
  intros used. vm_compute. reflexivity.
Qed.

(** C6: the code breaks the claim on doubles.  In the run
    [Streamlines([-3, 0, 3], [-3, 0, 3], ones, zeros,
    res=0.9999999999999999)] the forward half-streamline from the seed
    [(0, 0)] steps to [x = 2.9999999999999996]; the guard of line 153 lets
    that point through, line 103 computes [i = 2], so [i + 1 = 3] is past
    the last column index [2], and the read raises [IndexError]:
    construction ends in that exception, whatever time it is given. *)
Theorem guard_admits_read_past_last_column :
  Double.attrs (Double.Arr1 Double.wide3) (Double.Arr1 Double.wide3)
               (Double.uniform 3 3 1%float) (Double.uniform 3 3 0%float)
               Double.below_one 2 2500 false
  = Double.Ret Double.wide_object /\
  Double.seed Double.wide_object ring3 = Double.Ret (0%float, 0%float) /\
  (0 + Double.of_int 1 * Double.self_dr Double.wide_object * 1)%float
  = Double.below_three /\
  Double.inside (nth 0 Double.wide3 0%float) (last Double.wide3 0%float)
                (nth 0 Double.wide3 0%float) (last Double.wide3 0%float)
                Double.below_three 0%float = true /\
  Double.int ((Double.below_three - nth 0 Double.wide3 0%float)
              / Double.self_dx Double.wide_object)%float = Double.Ret 2%Z /\
  (2 + 1 > Z.of_nat (length Double.wide3) - 1)%Z /\
  @Double._makeHalfStreamline Double.east Double.wide_object ring3
                              0%float 0%float 1
  = Double.Raise Double.IndexError /\
  forall fuel, Double.wide_run (S fuel) = Double.Raise Double.IndexError.
Proof.
  split; [exact wide_object_attrs|].
  split; [vm_compute; reflexivity|].
  split; [vm_compute; reflexivity|].
  split; [vm_compute; reflexivity|].
  split; [vm_compute; reflexivity|].
  split; [vm_compute; reflexivity|].
  split; [vm_compute; reflexivity|].
  intros fuel. unfold Double.wide_run, Double.__init__.
  rewrite wide_object_attrs. cbn [Double.bind].
  pose proof wide_initial as H.
  destruct (Double.border (Double.self_u Double.wide_object)) as [m|e|];
    cbn [Double.bind] in *; try discriminate.
  rewrite H. cbn [Double.bind Double.main_loop].
  change (Mask.all ring3) with false. cbn [negb].
  rewrite wide_body. reflexivity.
Qed.

(** The state the rounding leaves the run on [y = 0, 0.1, 0.2, 0.3, 0.4]
    in. *)
Lemma tenths_attrs :
  Double.attrs (Double.Arr1 Double.axis3) (Double.Arr1 Double.tenths)
               (Double.uniform 5 3 1%float) (Double.uniform 5 3 0%float)
               0.5%float 1 2500 false
  = Double.Ret Double.tenths_object.
Proof. vm_compute. reflexivity. Qed.

Lemma tenths_initial :
  Double.bind (Double.border (Double.self_u Double.tenths_object))
              (Double.mark_all_still Double.tenths_object)
  = Double.Ret Double.ring5.
Proof. vm_compute. reflexivity. Qed.

Lemma tenths_turns :
  exists s1 m1 s2 s3,
    @Double.outer_body Double.east Double.tenths_object Double.ring5
    = Double.Ret (s1, m1) /\
    @Double.outer_body Double.east Double.tenths_object m1
    = Double.Ret (s2, Double.stuck5) /\
    Mask.all m1 = false /\
    @Double.outer_body Double.east Double.tenths_object Double.stuck5
    = Double.Ret (s3, Double.stuck5).
Proof.
  do 4 eexists. split; [vm_compute; reflexivity|].
  split; [vm_compute; reflexivity|].
  split; [vm_compute; reflexivity|].
  vm_compute. reflexivity.
Qed.

(** Rounding alone can stop the progress of the seeding loop: the axis
    [y = 0, 0.1, 0.2, 0.3, 0.4] is increasing, the arrays have the shape of
    the grid and [spacing = 1], but [0.3 / 0.1] is
    [2.9999999999999996] on doubles, line 103 finds the grid point
    [(1, 0.3)] in row [2], its own cell is never marked, and construction
    never returns. *)
Lemma rounded_grid_never_returns :
  Double.increasing Double.axis3 = true /\
  Double.increasing Double.tenths = true /\
  Mask.shape 5 3 (Double.uniform 5 3 1%float) /\
  Mask.shape 5 3 (Double.uniform 5 3 0%float) /\
  Double.node_index Double.tenths (Double.self_dy Double.tenths_object) 3
  = Double.Ret 2%Z /\
  forall fuel, Double.tenths_run fuel = Double.Running.
Proof.
  split; [reflexivity|]. split; [reflexivity|].
  split; [split; [reflexivity | repeat constructor]|].
  split; [split; [reflexivity | repeat constructor]|].
  split; [vm_compute; reflexivity|].
  intros fuel. unfold Double.tenths_run, Double.__init__.
  rewrite tenths_attrs. cbn [Double.bind].
  pose proof tenths_initial as H.
  destruct (Double.border (Double.self_u Double.tenths_object)) as [m|e|];
    cbn [Double.bind] in *; try discriminate.
  rewrite H. cbn [Double.bind].
  destruct tenths_turns as (s1 & m1 & s2 & s3 & E1 & E2 & Hall & E3).
  destruct fuel as [|fuel]; [reflexivity|].
  cbn [Double.main_loop]. change (Mask.all Double.ring5) with false.
  cbn [negb]. rewrite E1. cbn [Double.bind].
  destruct fuel as [|fuel]; [reflexivity|].
  cbn [Double.main_loop]. rewrite Hall. cbn [negb]. rewrite E2.
  cbn [Double.bind].
  exact (@dstuck_loop Double.east Double.tenths_object Double.stuck5 s3
           eq_refl E3 fuel _).
Qed.





End ClaimsOnDoubles.

(** * Further properties of the generator *)

(** ** Cells without velocity are never seeds *)

Lemma index_nat_inv (n k r : nat) :
  Py.index n (Z.of_nat k) = Some r -> r = k /\ (k < n)%nat.
Proof.
  intros H. pose proof (index_lt _ _ _ H) as Hr. unfold Py.index in H.
  destruct (Z.leb_spec 0 (Z.of_nat k)); [|lia].
  destruct (Z.ltb_spec (Z.of_nat k) (Z.of_nat n)); cbn [andb] in H.
  - injection H as <-. rewrite Nat2Z.id. split; [reflexivity | lia].
  - destruct (Z.leb_spec (- Z.of_nat n) (Z.of_nat k));
      destruct (Z.ltb_spec (Z.of_nat k) 0); cbn [andb] in H;
      try discriminate; lia.
Qed.

Lemma getitem_nat_inv {A : Type} (l : list A) (k : nat) (a d : A) :
  Py.getitem l (Z.of_nat k) = Val a -> a = nth k l d /\ (k < length l)%nat.
Proof.
  unfold Py.getitem. intros H.
  destruct (Py.index (length l) (Z.of_nat k)) as [r|] eqn:E; [|discriminate].
  apply index_nat_inv in E. destruct E as [-> Hk].
  destruct (nth_error l k) as [b|] eqn:En; [|discriminate].
  injection H as <-. split; [|exact Hk].
  symmetry. now apply nth_error_nth.
Qed.

Lemma getitem2_nat_inv (f : list (list Q)) (j i : nat) (a : Q) :
  Py.getitem2 f (Z.of_nat j) (Z.of_nat i) = Val a ->
  a = sample f (Z.of_nat j) (Z.of_nat i).
Proof.
  unfold Py.getitem2, sample. intros H.
  apply bind_Val in H. destruct H as [row [Er H]].
  apply (getitem_nat_inv _ _ _ []) in Er. destruct Er as [-> _].
  apply (getitem_nat_inv _ _ _ 0) in H. destruct H as [-> _].
  now rewrite !Nat2Z.id.
Qed.

Lemma set_cell_cell (m m' : mask) (j i : nat) :
  Mask.set_cell m (Z.of_nat j) (Z.of_nat i) = Val m' ->
  Mask.cell m' j i = true.
Proof.
  unfold Mask.set_cell. intros H.
  destruct (Py.index (Mask.nrows m) (Z.of_nat j)) as [r|] eqn:Er;
    [|discriminate].
  destruct (Py.index (Mask.ncols m) (Z.of_nat i)) as [c|] eqn:Ec;
    [|discriminate].
  apply index_nat_inv in Er. destruct Er as [-> Hj].
  apply index_nat_inv in Ec. destruct Ec as [-> Hi].
  injection H as <-. unfold Mask.cell, Py.mapi.
  rewrite (mapi_from_nth _ m 0 j [] []) by exact Hj.
  simpl. rewrite Nat.eqb_refl.
  destruct (Nat.lt_ge_cases i (length (nth j m []))) as [Hc|Hc].
  - rewrite (mapi_from_nth _ _ 0 i true true) by exact Hc.
    simpl. now rewrite Nat.eqb_refl.
  - apply nth_overflow. now rewrite mapi_from_length.
Qed.

(** What one turn of a [for] loop establishes, the later turns keep. *)
Lemma for_each_hit (Q : mask -> Prop) (ks : list nat)
      (body : nat -> mask -> result mask) (k : nat) (m m' : mask) :
  (forall k a b, body k a = Val b -> Mask.le a b) ->
  (forall a b, Mask.le a b -> Q a -> Q b) ->
  (forall a b, body k a = Val b -> Q b) ->
  In k ks -> for_each ks body m = Val m' -> Q m'.
Proof.
  intros Hle Hmono Hk. revert m.
  induction ks as [|k0 ks IH]; intros m Hin H; [contradiction|].
  simpl in H. apply bind_Val in H. destruct H as [m1 [E H]].
  destruct Hin as [->|Hin].
  - eapply Hmono; [eapply for_each_le; [exact Hle | exact H]|].
    eapply Hk; exact E.
  - eapply IH; eassumption.
Qed.

Lemma mark_still_cell (g : Streamlines) (i j : nat) (m m' : mask) :
  sample (self_u g) (Z.of_nat j) (Z.of_nat i) == 0 ->
  sample (self_v g) (Z.of_nat j) (Z.of_nat i) == 0 ->
  mark_still g i j m = Val m' -> Mask.cell m' j i = true.
Proof.
  unfold mark_still. intros Hu Hv H.
  apply bind_Val in H. destruct H as [uji [Eu H]].
  apply getitem2_nat_inv in Eu. subst uji.
  apply Qeq_bool_iff in Hu. rewrite Hu in H.
  apply bind_Val in H. destruct H as [vji [Ev H]].
  apply getitem2_nat_inv in Ev. subst vji.
  apply Qeq_bool_iff in Hv. rewrite Hv in H.
  eapply set_cell_cell; exact H.
Qed.

Lemma mark_all_still_cell (g : Streamlines) (m used : mask) (r c : nat) :
  (r < length (self_y g))%nat -> (c < length (self_x g))%nat ->
  sample (self_u g) (Z.of_nat r) (Z.of_nat c) == 0 ->
  sample (self_v g) (Z.of_nat r) (Z.of_nat c) == 0 ->
  mark_all_still g m = Val used -> Mask.cell used r c = true.
Proof.
  intros Hr Hc Hu Hv H. unfold mark_all_still, for_range in H.
  assert (Hmono : forall a b, Mask.le a b ->
                              Mask.cell a r c = true -> Mask.cell b r c = true).
  { intros a b Hle. now apply MaskFacts.le_cell. }
  refine (for_each_hit (fun a => Mask.cell a r c = true)
            (seq 0 (length (self_x g))) _ c m used _ Hmono _ _ H).
  - intros i a b. apply for_each_le. intros j. apply mark_still_le.
  - intros a b Hb.
    refine (for_each_hit (fun a => Mask.cell a r c = true)
              (seq 0 (length (self_y g))) _ r a b _ Hmono _ _ Hb).
    + intros j. apply mark_still_le.
    + intros a' b'. now apply mark_still_cell.
    + apply in_seq. lia.
  - apply in_seq. lia.
Qed.

(** Zero-field exclusion (lines 80-84 and 89-92): a grid cell where both
    velocity components are zero is set in the mask the seeding loop
    starts from and in every mask above it, so the seeding step never
    picks it. *)
Theorem still_cells_never_seed (g : Streamlines) (m used0 used : mask)
        (r c : nat) :
  (r < length (self_y g))%nat -> (c < length (self_x g))%nat ->
  sample (self_u g) (Z.of_nat r) (Z.of_nat c) == 0 ->
  sample (self_v g) (Z.of_nat r) (Z.of_nat c) == 0 ->
  mark_all_still g m = Val used0 -> Mask.le used0 used ->
  Mask.cell used r c = true /\ first_unused used <> Some (r, c).
Proof.
  intros Hr Hc Hu Hv H Hle.
  assert (Hcell : Mask.cell used r c = true).
  { eapply MaskFacts.le_cell; [exact Hle|].
    eapply mark_all_still_cell; eassumption. }
  split; [exact Hcell|].
  intros E. apply first_unused_spec in E. destruct E as (_ & _ & E & _).
  congruence.
Qed.

Lemma still_cells_never_seed_witness :
  Mask.cell full3 1 1 = true /\ first_unused full3 <> Some (1, 1)%nat.
Proof.
  assert (Hm : mark_all_still calm3 ring3 = Val full3)
    by (vm_compute; reflexivity).
  exact (still_cells_never_seed calm3 ring3 full3 full3 1 1
           (proj1 (Nat.ltb_lt 1 3) eq_refl) (proj1 (Nat.ltb_lt 1 3) eq_refl)
           (Qeq_refl 0) (Qeq_refl 0) Hm (MaskFacts.le_refl full3)).
Defined.

(** ** The cap the code keeps on the length of a streamline *)

(** Lines 162-168 and 129-135: every streamline of the output has at most
    [2 * floor(maxLen / 2) + 3] points (three points when [maxLen] is
    negative): each half stops when its counter, tested after the append,
    passes [maxLen / 2], and the seed is added between the halves. *)
Theorem streamline_length_cap {np : NumPy} (X Y : ndarray)
        (U V : list (list Q)) (res : Q) (spacing maxLen : Z)
        (detectLoops : bool) (fuel : nat)
        (sls : list streamline) (used : mask) :
  __init__ fuel X Y U V res spacing maxLen detectLoops = Val (sls, used) ->
  Forall (fun s : streamline =>
            length (fst s) = length (snd s) /\
            (Z.of_nat (length (fst s)) <= 2 * Z.max 0 (maxLen / 2) + 3)%Z) sls.
Proof.
  intros H. apply init_inv in H.
  destruct H as (g & m & used0 & Eg & _ & _ & H).
  pose proof (attrs_constructed _ _ _ _ _ _ _ _ _ Eg)
    as (Hg & _ & _ & _ & _ & _ & Hml & _).
  eapply (main_loop_rule g (fun _ => True)) in H.
  - exact (proj1 H).
  - intros m1 [xs ys] m2 _ _ Hb. split; [|exact I]. simpl. split.
    + exact (proj1 (outer_body_points g Hg _ _ _ _ Hb)).
    + unfold outer_body in Hb.
      apply bind_Val in Hb. destruct Hb as [[x0 y0] [_ Hb]].
      rewrite <- Hml. eapply makeStreamline_length; eassumption.
  - exact I.
  - constructor.
Qed.

Lemma streamline_length_cap_witness :
  Forall (fun s : streamline =>
            length (fst s) = length (snd s) /\
            (Z.of_nat (length (fst s)) <= 2 * Z.max 0 (4 / 2) + 3)%Z)
         (fst short_lines).
Proof.
  assert (H : short_run 2 = Val (fst short_lines, snd short_lines))
    by (vm_compute; reflexivity).
  exact (@streamline_length_cap east (Arr1 axis3) (Arr1 axis3)
           (uniform 3 3 1) (uniform 3 3 0) (1 # 8) 2 4 false 2
           (fst short_lines) (snd short_lines) H).
Defined.

(** ** The border ring *)

Lemma set_row_other (m m' : mask) (k : Z) (r0 r c : nat) :
  Py.index (Mask.nrows m) k = Some r0 -> Mask.set_row m k = Val m' ->
  r <> r0 -> Mask.cell m' r c = Mask.cell m r c.
Proof.
  intros E H Hr. unfold Mask.set_row in H. rewrite E in H.
  injection H as <-. unfold Mask.cell, Py.mapi.
  destruct (Nat.lt_ge_cases r (length m)) as [Hlt|Hge].
  - rewrite (mapi_from_nth _ m 0 r [] []) by exact Hlt. simpl.
    apply Nat.eqb_neq in Hr. now rewrite Hr.
  - rewrite (nth_overflow m []) by lia.
    rewrite (nth_overflow (Py.mapi_from 0 _ m) [])
      by (rewrite mapi_from_length; lia).
    reflexivity.
Qed.

Lemma set_col_other (m m' : mask) (k : Z) (c0 r c : nat) :
  Py.index (Mask.ncols m) k = Some c0 -> Mask.set_col m k = Val m' ->
  c <> c0 -> Mask.cell m' r c = Mask.cell m r c.
Proof.
  intros E H Hc. unfold Mask.set_col in H. rewrite E in H.
  injection H as <-. unfold Mask.cell.
  set (F := Py.mapi (fun (c' : nat) (b : bool) => if (c' =? c0)%nat then true else b)).
  change (@nil bool) with (F []) at 1. rewrite map_nth. unfold F, Py.mapi.
  destruct (Nat.lt_ge_cases c (length (nth r m []))) as [Hlt|Hge].
  - rewrite (mapi_from_nth _ _ 0 c true true) by exact Hlt. simpl.
    apply Nat.eqb_neq in Hc. now rewrite Hc.
  - rewrite (nth_overflow (nth r m []) true) by lia.
    apply nth_overflow. rewrite mapi_from_length. lia.
Qed.

Lemma zeros_cell (rows cols r c : nat) :
  (r < rows)%nat -> (c < cols)%nat -> Mask.cell (Mask.zeros rows cols) r c = false.
Proof.
  intros Hr Hc. unfold Mask.cell, Mask.zeros.
  assert (E : nth r (repeat (repeat false cols) rows) [] = repeat false cols).
  { apply (repeat_spec rows). apply nth_In. now rewrite repeat_length. }
  rewrite E. apply (repeat_spec cols). apply nth_In. now rewrite repeat_length.
Qed.

Section Border.

Context {np : NumPy}.

(** Lines 74-78: on a field array of [rows] by [cols] samples the mask
    [__init__] starts from has exactly its border ring set: a cell is
    unset if and only if it lies in neither the first nor the last row or
    column. *)
Theorem border_exactly_ring (rows cols : nat) (U : list (list Q)) :
  Mask.shape rows cols U -> (1 <= rows)%nat -> (1 <= cols)%nat ->
  exists m,
    border U = Val m /\ Mask.shape rows cols m /\
    forall r c, (r < rows)%nat -> (c < cols)%nat ->
      (Mask.cell m r c = false <->
       (0 < r /\ r + 1 < rows)%nat /\ (0 < c /\ c + 1 < cols)%nat).
Proof.
  intros HU Hr Hc.
  destruct (border_ringed rows cols U HU Hr Hc) as (m & Em & Hs & Hring).
  exists m. split; [exact Em|]. split; [exact Hs|].
  intros r c Hrr Hcc. split; [apply Hring|].
  intros [[Hr0 Hr1] [Hc0 Hc1]].
  unfold border in Em.
  assert (Hn : Mask.nrows U = rows) by (destruct HU; assumption).
  rewrite Hn, (ncols_shape rows cols U HU) in Em by lia.
  pose proof (zeros_shape rows cols) as H0.
  apply bind_Val in Em. destruct Em as [m1 [E1 Em]].
  pose proof (MaskFacts.le_shape _ _ _ _ (MaskFacts.le_set_row _ _ _ E1) H0) as H1.
  apply bind_Val in Em. destruct Em as [m2 [E2 Em]].
  pose proof (MaskFacts.le_shape _ _ _ _ (MaskFacts.le_set_row _ _ _ E2) H1) as H2.
  apply bind_Val in Em. destruct Em as [m3 [E3 E4]].
  pose proof (MaskFacts.le_shape _ _ _ _ (MaskFacts.le_set_col _ _ _ E3) H2) as H3.
  assert (Hi : forall a : mask, Mask.shape rows cols a ->
            Py.index (Mask.nrows a) 0 = Some 0%nat /\
            Py.index (Mask.nrows a) (-1) = Some (rows - 1)%nat /\
            Py.index (Mask.ncols a) 0 = Some 0%nat /\
            Py.index (Mask.ncols a) (-1) = Some (cols - 1)%nat).
  { intros a Ha. rewrite (ncols_shape rows cols a Ha) by lia.
    destruct Ha as [Ha _]. unfold Mask.nrows. rewrite Ha.
    repeat split; try (apply index_last; lia).
    - apply (index_nat rows 0). lia.
    - apply (index_nat cols 0). lia. }
  rewrite (set_col_other m3 m (-1) (cols - 1) r c
             (proj2 (proj2 (proj2 (Hi m3 H3)))) E4) by lia.
  rewrite (set_col_other m2 m3 0 0 r c
             (proj1 (proj2 (proj2 (Hi m2 H2)))) E3) by lia.
  rewrite (set_row_other m1 m2 (-1) (rows - 1) r c
             (proj1 (proj2 (Hi m1 H1))) E2) by lia.
  rewrite (set_row_other _ m1 0 0 r c (proj1 (Hi _ H0)) E1) by lia.
  now apply zeros_cell.
Qed.

Lemma border_exactly_ring_witness :
  exists m,
    border (uniform 3 3 1) = Val m /\ Mask.shape 3 3 m /\
    forall r c, (r < 3)%nat -> (c < 3)%nat ->
      (Mask.cell m r c = false <->
       (0 < r /\ r + 1 < 3)%nat /\ (0 < c /\ c + 1 < 3)%nat).
Proof.
  assert (HU : Mask.shape 3 3 (uniform 3 3 1))
    by (split; [reflexivity | repeat constructor]).
  exact (border_exactly_ring 3 3 (uniform 3 3 1) HU
           (proj1 (Nat.leb_le 1 3) eq_refl) (proj1 (Nat.leb_le 1 3) eq_refl)).
Defined.

End Border.

(** ** Why a half-streamline stops *)

Section Exit.

Context {np : NumPy}.
Variable g : Streamlines.

Lemma half_loop_exit (sign : Z) (xmin xmax ymin ymax x0 y0 : Q) :
  forall fuel used x y i sx sy sx' sy' used',
    x = last sx x0 -> y = last sy y0 -> i = Z.of_nat (length sx) ->
    half_loop fuel g sign xmin xmax ymin ymax used x y i sx sy
    = Val (sx', sy', used') ->
    inside xmin xmax ymin ymax (last sx' x0) (last sy' y0) = false \/
    (self_maxLen g < 2 * Z.of_nat (length sx'))%Z \/
    (self_detectLoops g = true /\
     (Z.of_nat (length sx') mod 10 = 0)%Z /\
     _detectLoop g sx' sy' = Val true).
Proof.
  induction fuel as [|fuel IH];
    intros used x y i sx sy sx' sy' used' Hx Hy Hi H; [discriminate|].
  simpl in H.
  destruct (inside xmin xmax ymin ymax x y) eqn:Ein.
  - destruct (_interp g used x y) as [[[u v] used1]| |] eqn:Eint;
      simpl in H; try discriminate.
    set (x' := x + inject_Z sign * self_dr g * np_cos (np_arctan2 v u)) in *.
    set (y' := y + inject_Z sign * self_dr g * np_sin (np_arctan2 v u)) in *.
    assert (Hlen : Z.of_nat (length (sx ++ [x'])) = (i + 1)%Z).
    { rewrite length_app. simpl. lia. }
    match type of H with
    | context [bind ?c _] => destruct c as [looped| |] eqn:El
    end; simpl in H; try discriminate.
    destruct looped.
    + injection H as <- <- <-. right. right. rewrite Hlen.
      destruct (self_detectLoops g); [|discriminate].
      destruct ((i + 1) mod 10 =? 0)%Z eqn:Em; simpl in El; [|discriminate].
      apply Z.eqb_eq in Em. auto.
    + match type of H with
      | context [Py.Qltb ?a ?b] => destruct (Py.Qltb a b) eqn:Eover
      end.
      * injection H as <- <- <-. right. left. rewrite Hlen.
        apply over_spec in Eover. lia.
      * eapply IH; [| | |exact H].
        -- now rewrite last_last.
        -- now rewrite last_last.
        -- now rewrite Hlen.
  - injection H as <- <- <-. left. subst x y. exact Ein.
Qed.

Hypothesis Hg : constructed g.

(** Lines 153-168: a half-streamline that returns has stopped for one of
    three reasons: its last point (the seed, when it is empty) fails the
    guard of line 153, or its length has passed [maxLen / 2], or loop
    detection is on, its length is a multiple of [10] and [_detectLoop]
    answered [True].  Without [detectLoops] only the first two remain. *)
Theorem half_streamline_stops (used used' : mask) (x0 y0 : Q) (sign : Z)
        (sx sy : list Q) :
  _makeHalfStreamline g used x0 y0 sign = Val (sx, sy, used') ->
  (~ in_box g (last sx x0) (last sy y0) \/
   (self_maxLen g < 2 * Z.of_nat (length sx))%Z \/
   (self_detectLoops g = true /\
    (Z.of_nat (length sx) mod 10 = 0)%Z /\
    _detectLoop g sx sy = Val true)) /\
  (self_detectLoops g = false ->
   ~ in_box g (last sx x0) (last sy y0) \/
   (self_maxLen g < 2 * Z.of_nat (length sx))%Z).
Proof.
  rewrite (makeHalf_loop g Hg). unfold box_loop. intros H.
  apply (half_loop_exit sign _ _ _ _ x0 y0) in H; try reflexivity.
  assert (Hbox : inside (nth 0 (self_x g) 0) (last (self_x g) 0)
                        (nth 0 (self_y g) 0) (last (self_y g) 0)
                        (last sx x0) (last sy y0) = false ->
                 ~ in_box g (last sx x0) (last sy y0)).
  { intros E Hin. apply inside_in_box in Hin. congruence. }
  split.
  - destruct H as [H|[H|H]]; auto.
  - intros Hoff. destruct H as [H|[H|(H & _)]]; auto. congruence.
Qed.

End Exit.

Lemma half_streamline_stops_witness :
  exists sx sy used',
    @_makeHalfStreamline east (east3 axis3 axis3 2) ring3 1 1 1
    = Val (sx, sy, used') /\
    (~ in_box (east3 axis3 axis3 2) (last sx 1) (last sy 1) \/
     (2500 < 2 * Z.of_nat (length sx))%Z).
Proof.
  destruct (@_makeHalfStreamline east (east3 axis3 axis3 2) ring3 1 1 1)
    as [[[sx sy] used']| |] eqn:E; try (vm_compute in E; discriminate E).
  exists sx, sy, used'. split; [reflexivity|].
  exact (proj2 (@half_streamline_stops east (east3 axis3 axis3 2)
                  (east3_constructed axis3 axis3 2 axis3_nonempty axis3_nonempty)
                  ring3 used' 1 1 1%Z sx sy E) eq_refl).
Defined.

(** ** The two halves leave the seed along one velocity *)

Section Mirror.

Context {np : NumPy}.
Variable g : Streamlines.
Hypothesis Hg : constructed g.

(** The velocity [_interp] returns does not depend on the mask. *)
Lemma interp_any_mask (used used1 : mask) (x y u v : Q) (m : mask) :
  _interp g used x y = Val (u, v, m) ->
  exists m1, _interp g used1 x y = Val (u, v, m1).
Proof.
  unfold _interp. intros H.
  apply bind_Val in H. destruct H as [x0 [Ex H]]. rewrite Ex. cbn [bind].
  apply bind_Val in H. destruct H as [y0 [Ey H]]. rewrite Ey. cbn [bind].
  apply bind_Val in H. destruct H as [u' [Eu H]]. rewrite Eu. cbn [bind].
  apply bind_Val in H. destruct H as [v' [Ev H]]. rewrite Ev. cbn [bind].
  injection H as <- <- _. eauto.
Qed.

(** The first point of a half-streamline is one step from the seed, along
    the velocity at the seed. *)
Lemma makeHalf_first_point (used used' : mask) (x0 y0 : Q) (sign : Z)
      (sx sy : list Q) :
  in_box g x0 y0 ->
  _makeHalfStreamline g used x0 y0 sign = Val (sx, sy, used') ->
  exists u v m,
    _interp g used x0 y0 = Val (u, v, m) /\
    (1 <= length sx)%nat /\ (1 <= length sy)%nat /\
    nth 0 sx 0 = x0 + inject_Z sign * self_dr g * np_cos (np_arctan2 v u) /\
    nth 0 sy 0 = y0 + inject_Z sign * self_dr g * np_sin (np_arctan2 v u).
Proof.
  rewrite (makeHalf_loop g Hg). intros Hseed H.
  pose (P := fun (_ : mask) (_ _ : Q) (_ : Z) (sx sy : list Q) =>
               exists u v m,
                 _interp g used x0 y0 = Val (u, v, m) /\
                 (1 <= length sx)%nat /\ (1 <= length sy)%nat /\
                 nth 0 sx 0 = x0 + inject_Z sign * self_dr g
                                   * np_cos (np_arctan2 v u) /\
                 nth 0 sy 0 = y0 + inject_Z sign * self_dr g
                                   * np_sin (np_arctan2 v u)).
  pose (I := fun (m : mask) (x y : Q) (i : Z) (sx sy : list Q) =>
               (m = used /\ x = x0 /\ y = y0 /\ sx = [] /\ sy = [])
               \/ P m x y i sx sy).
  assert (Hstep : forall m x y i sx sy,
             turn g sign (nth 0 (self_x g) 0) (last (self_x g) 0)
                  (nth 0 (self_y g) 0) (last (self_y g) 0) I m x y i sx sy P).
  { unfold turn, I, P. intros m x y i px py u v m' HI Hbox Hint.
    destruct HI as [(-> & -> & -> & -> & ->)|(u0 & v0 & m0 & E & H1 & H2 & Hx & Hy)].
    - exists u, v, m'. simpl. repeat split; auto.
    - exists u0, v0, m0. rewrite !length_app. simpl.
      rewrite !app_nth1 by lia. repeat split; auto; lia. }
  unfold box_loop in H.
  eapply (half_loop_rule g sign _ _ _ _ I P) in H;
    [destruct H as (? & ? & ? & HP); exact HP | | | |].
  - intros m x y i px py [(-> & -> & -> & -> & ->)|HP] Hout; [|exact HP].
    apply inside_in_box in Hseed. congruence.
  - exact Hstep.
  - intros m x y i px py u v m' HI Hbox Hint; simpl; intros _. right.
    exact (Hstep m x y i px py u v m' HI Hbox Hint).
  - left. repeat split.
Qed.

(** Lines 129-135 and 154-160: in a streamline grown from a seed that
    passes the guard, the seed is a point of the polyline and not one of
    its ends; the point after it is the step of lines 157-158 taken from
    the seed with [sign = 1], the point before it is that step taken with
    [sign = -1], and both use the one velocity [_interp] returns at the
    seed. *)
Theorem seed_between_opposite_steps (used used' : mask) (x0 y0 : Q)
        (xs ys : list Q) :
  in_box g x0 y0 ->
  _makeStreamline g used x0 y0 = Val ((xs, ys), used') ->
  exists k u v m,
    (0 < k)%nat /\ (k + 1 < length xs)%nat /\
    nth k xs 0 = x0 /\ nth k ys 0 = y0 /\
    _interp g used x0 y0 = Val (u, v, m) /\
    nth (k + 1) xs 0
    = x0 + inject_Z 1 * self_dr g * np_cos (np_arctan2 v u) /\
    nth (k + 1) ys 0
    = y0 + inject_Z 1 * self_dr g * np_sin (np_arctan2 v u) /\
    nth (k - 1) xs 0
    = x0 + inject_Z (-1) * self_dr g * np_cos (np_arctan2 v u) /\
    nth (k - 1) ys 0
    = y0 + inject_Z (-1) * self_dr g * np_sin (np_arctan2 v u).
Proof.
  intros Hin H. apply makeStreamline_inv in H.
  destruct H as (sx & sy & rx & ry & used1 & E1 & E2 & -> & ->).
  pose proof (makeHalf_points g Hg _ _ _ _ _ _ _ E2) as [Hlr _].
  destruct (makeHalf_first_point _ _ _ _ _ _ _ Hin E1)
    as (u & v & m & Ei & Hs1 & Hs2 & Hsx & Hsy).
  destruct (makeHalf_first_point _ _ _ _ _ _ _ Hin E2)
    as (u' & v' & m' & Ei' & Hr1 & Hr2 & Hrx & Hry).
  destruct (interp_any_mask used used1 _ _ _ _ _ Ei) as [m1 Ei1].
  rewrite Ei1 in Ei'. injection Ei' as <- <- _.
  exists (length rx), u, v, m.
  split; [lia|]. split; [rewrite length_app, length_rev; simpl; lia|].
  assert (Hk : forall (a b : list Q) (c : Q),
             (1 <= length a)%nat -> (1 <= length b)%nat ->
             nth (length a) (rev a ++ [c] ++ b) 0 = c /\
             nth (length a - 1) (rev a ++ [c] ++ b) 0 = nth 0 a 0 /\
             nth (length a + 1) (rev a ++ [c] ++ b) 0 = nth 0 b 0).
  { intros a b c Ha Hb. repeat split.
    - rewrite app_nth2 by (rewrite length_rev; lia).
      rewrite length_rev, Nat.sub_diag. reflexivity.
    - rewrite app_nth1 by (rewrite length_rev; lia).
      rewrite rev_nth by lia. f_equal. lia.
    - rewrite app_nth2 by (rewrite length_rev; lia).
      rewrite length_rev.
      replace (length a + 1 - length a)%nat with 1%nat by lia. reflexivity. }
  destruct (Hk rx sx x0 Hr1 Hs1) as (Kx0 & Kx1 & Kx2).
  pose proof (Hk ry sy y0 Hr2 Hs2) as (Ky0 & Ky1 & Ky2).
  rewrite <- Hlr in Ky0, Ky1, Ky2.
  rewrite Kx0, Kx1, Kx2, Ky0, Ky1, Ky2, Hsx, Hsy, Hrx, Hry.
  repeat split; try reflexivity. exact Ei.
Qed.

End Mirror.

Lemma seed_between_opposite_steps_witness :
  exists xs ys used' k u v,
    @_makeStreamline east (east3 axis3 axis3 2) ring3 1 1
    = Val ((xs, ys), used') /\
    nth k xs 0 = 1 /\
    nth (k + 1) xs 0
    = 1 + inject_Z 1 * self_dr (east3 axis3 axis3 2)
          * @np_cos east (@np_arctan2 east v u) /\
    nth (k - 1) xs 0
    = 1 + inject_Z (-1) * self_dr (east3 axis3 axis3 2)
          * @np_cos east (@np_arctan2 east v u).
Proof.
  assert (Hbox : in_box (east3 axis3 axis3 2) 1 1)
    by (unfold in_box; simpl; repeat split).
  destruct (@_makeStreamline east (east3 axis3 axis3 2) ring3 1 1)
    as [[[xs ys] used']| |] eqn:E; try (vm_compute in E; discriminate E).
  destruct (@seed_between_opposite_steps east (east3 axis3 axis3 2)
              (east3_constructed axis3 axis3 2 axis3_nonempty axis3_nonempty)
              ring3 used' 1 1 xs ys Hbox E)
    as (k & u & v & m & _ & _ & Hx & _ & _ & Hn & _ & Hp & _).
  exists xs, ys, used', k, u, v. split; [reflexivity|].
  split; [exact Hx|]. split; [exact Hn | exact Hp].
Defined.

(** ** The fractional part of a float *)

Lemma mod1_range (q : Q) : 0 <= Py.mod1 q /\ Py.mod1 q < 1.
Proof.
  unfold Py.mod1. pose proof (Qfloor_le q) as H1.
  pose proof (Qlt_floor q) as H2. rewrite inject_Z_plus in H2.
  change (inject_Z 1) with 1 in H2. split; lra.
Qed.

(** ** The block [_interp] marks *)





(** ** How many streamlines *)




Section Count.

Context {np : NumPy}.
Variable g : Streamlines.


End Count.



(** ** Mesh-grid coordinates *)

Lemma axis_x_meshgrid (x y : list Q) :
  y <> [] -> axis_x (fst (meshgrid x y)) = Val x.
Proof.
  intros Hy. destruct y as [|y0 y]; [congruence|]. reflexivity.
Qed.

Lemma axis_y_meshgrid (x y : list Q) :
  x <> [] -> y <> [] -> axis_y (snd (meshgrid x y)) = Val y.
Proof.
  intros Hx Hy. destruct x as [|x0 x]; [congruence|].
  destruct y as [|y0 y]; [congruence|].
  unfold meshgrid, axis_y. cbn [snd].
  assert (E : Py.index
                (Mask.ncols (map (fun yv : Q => map (fun _ : Q => yv) (x0 :: x))
                                 (y0 :: y))) 0 = Some 0%nat).
  { cbn [map Mask.ncols]. apply (index_nat _ 0). simpl. lia. }
  rewrite E. f_equal. rewrite map_map.
  rewrite (map_ext _ (fun yv : Q => yv)) by reflexivity. apply map_id.
Qed.

(** Lines 63-66: handing [__init__] the two-dimensional arrays of
    [np.meshgrid(x, y)] is the same as handing it the axes [x] and [y]:
    the generator takes the first row of [X] and the first column of [Y],
    and returns the same streamlines and mask. *)
Theorem meshgrid_same_generator {np : NumPy} (x y : list Q)
        (U V : list (list Q)) (res : Q) (spacing maxLen : Z)
        (detectLoops : bool) (fuel : nat) :
  x <> [] -> y <> [] ->
  __init__ fuel (fst (meshgrid x y)) (snd (meshgrid x y))
           U V res spacing maxLen detectLoops
  = __init__ fuel (Arr1 x) (Arr1 y) U V res spacing maxLen detectLoops.
Proof.
  intros Hx Hy. unfold __init__, attrs.
  rewrite (axis_x_meshgrid x y Hy), (axis_y_meshgrid x y Hx Hy).
  reflexivity.
Qed.

Lemma meshgrid_same_generator_witness :
  @__init__ east 2 (fst (meshgrid axis3 axis3)) (snd (meshgrid axis3 axis3))
            (uniform 3 3 1) (uniform 3 3 0) (1 # 2) 2 2500 false
  = east_run 2.
Proof.
  exact (@meshgrid_same_generator east axis3 axis3 (uniform 3 3 1)
           (uniform 3 3 0) (1 # 2) 2 2500 false 2
           axis3_nonempty axis3_nonempty).
Defined.

(** ** [_detectLoop] *)

Section DetectLoop.

Context {np : NumPy}.
Variable g : Streamlines.

Lemma detectLoop_last (px py : list Q) (x y : Q) :
  _detectLoop g (px ++ [x]) (py ++ [y])
  = Val (existsb (fun d => Py.Qltb d ((9 # 10) * self_dr g))
                 (map (fun p : Q * Q =>
                         let (xj, yj) := p in np_hypot (x - xj) (y - yj))
                      (combine px py))).
Proof.
  unfold _detectLoop.
  rewrite (getitem_last (px ++ [x]) 0) by (now destruct px).
  rewrite (getitem_last (py ++ [y]) 0) by (now destruct py).
  cbn [bind]. now rewrite !last_last, !removelast_last.
Qed.

(** Lines 172-179: on an empty list [_detectLoop] raises [IndexError]; on
    lists of equal, positive length it answers [True] exactly when some
    earlier point lies closer than [0.9 * dr] to the newest one.  The
    newest point is never compared with itself, so a list of one point
    gives [False]. *)
Theorem detectLoop_spec :
  (forall yVals, _detectLoop g [] yVals = IndexError) /\
  (forall xVals yVals,
      xVals <> [] -> length xVals = length yVals ->
      exists b,
        _detectLoop g xVals yVals = Val b /\
        (b = true <->
         exists k, (k + 1 < length xVals)%nat /\
                   np_hypot (last xVals 0 - nth k xVals 0)
                            (last yVals 0 - nth k yVals 0)
                   < (9 # 10) * self_dr g)) /\
  (forall x y, _detectLoop g [x] [y] = Val false).
Proof.
  split; [reflexivity|]. split; [|intros x y; apply (detectLoop_last [] [])].
  intros xs ys Hne Hlen.
  destruct (exists_last Hne) as (px & x & ->).
  assert (Hne' : ys <> []).
  { intros ->. rewrite length_app in Hlen. simpl in Hlen. lia. }
  destruct (exists_last Hne') as (py & y & ->).
  rewrite !length_app in Hlen. simpl in Hlen.
  assert (Hl : length px = length py) by lia.
  rewrite detectLoop_last. eexists. split; [reflexivity|].
  rewrite !last_last, length_app. simpl.
  rewrite existsb_exists. split.
  - intros (d & Hin & Hd). apply in_map_iff in Hin.
    destruct Hin as ([xj yj] & <- & Hin).
    apply (In_nth _ _ (0, 0)) in Hin. destruct Hin as (k & Hk & Ek).
    rewrite length_combine, <- Hl, Nat.min_id in Hk.
    rewrite combine_nth in Ek by exact Hl. injection Ek as <- <-.
    exists k. split; [lia|].
    rewrite !app_nth1 by lia. now apply Qltb_lt.
  - intros (k & Hk & Hd).
    assert (Hk' : (k < length px)%nat) by lia.
    rewrite !app_nth1 in Hd by lia.
    exists (np_hypot (x - nth k px 0) (y - nth k py 0)).
    split; [|now apply Qltb_lt].
    apply in_map_iff. exists (nth k px 0, nth k py 0). split; [reflexivity|].
    rewrite <- combine_nth by exact Hl. apply nth_In.
    rewrite length_combine, <- Hl, Nat.min_id. exact Hk'.
Qed.

End DetectLoop.

Lemma detectLoop_spec_witness :
  exists b, @_detectLoop east (east3 axis3 axis3 2) [1; 3 # 2] [1; 1] = Val b.
Proof.
  destruct (proj1 (proj2 (@detectLoop_spec east (east3 axis3 axis3 2)))
              [1; 3 # 2] [1; 1]) as (b & E & _);
    [discriminate | reflexivity |].
  exists b. exact E.
Defined.

(** ** Inputs that raise *)

Lemma getitem_raises {A : Type} (l : list A) (k : Z) :
  Py.getitem l k <> OutOfFuel.
Proof.
  unfold Py.getitem. destruct (Py.index (length l) k); [|discriminate].
  destruct (nth_error l n); discriminate.
Qed.

Lemma getitem_empty {A : Type} (k : Z) : Py.getitem (@nil A) k = IndexError.
Proof.
  unfold Py.getitem. destruct (Py.index (length (@nil A)) k) eqn:E;
    [|reflexivity].
  apply index_lt in E. simpl in E. lia.
Qed.

Lemma axis_x_raises (X : ndarray) : axis_x X <> OutOfFuel.
Proof. destruct X; simpl; [discriminate | apply getitem_raises]. Qed.

Lemma axis_y_raises (Y : ndarray) : axis_y Y <> OutOfFuel.
Proof.
  destruct Y; simpl; [discriminate|].
  destruct (Py.index (Mask.ncols a) 0); discriminate.
Qed.

(** Lines 65-70: an empty coordinate array is rejected at once.  If the x
    axis or the y axis [__init__] extracts has no element, construction
    raises [IndexError], whatever the other arguments are. *)
Theorem empty_axis_raises {np : NumPy} (X Y : ndarray) (U V : list (list Q))
        (res : Q) (spacing maxLen : Z) (detectLoops : bool) (fuel : nat) :
  axis_x X = Val [] \/ axis_y Y = Val [] ->
  __init__ fuel X Y U V res spacing maxLen detectLoops = IndexError.
Proof.
  intros H. unfold __init__, attrs.
  pose proof (axis_x_raises X) as Hx. pose proof (axis_y_raises Y) as Hy.
  destruct (axis_x X) as [x| |]; cbn [bind]; [|reflexivity|congruence].
  destruct (axis_y Y) as [y| |]; cbn [bind]; [|reflexivity|congruence].
  destruct H as [H|H]; injection H as ->.
  - rewrite getitem_empty. reflexivity.
  - pose proof (getitem_raises x (-1)) as H1.
    pose proof (getitem_raises x 0) as H0.
    destruct (Py.getitem x (-1)); cbn [bind]; [|reflexivity|congruence].
    destruct (Py.getitem x 0); cbn [bind]; [|reflexivity|congruence].
    rewrite getitem_empty. reflexivity.
Qed.

Lemma empty_axis_raises_witness :
  @__init__ east 2 (Arr1 []) (Arr1 axis3) (uniform 3 3 1) (uniform 3 3 0)
            (1 # 2) 2 2500 false = IndexError.
Proof.
  exact (@empty_axis_raises east (Arr1 []) (Arr1 axis3) (uniform 3 3 1)
           (uniform 3 3 0) (1 # 2) 2 2500 false 2 (or_introl eq_refl)).
Defined.

Lemma getitem_overflow {A : Type} (l : list A) (k : nat) :
  (length l <= k)%nat -> Py.getitem l (Z.of_nat k) = IndexError.
Proof.
  intros H. unfold Py.getitem.
  destruct (Py.index (length l) (Z.of_nat k)) as [r|] eqn:E; [|reflexivity].
  apply index_nat_inv in E. lia.
Qed.

Lemma for_each_no_fuel {S : Type} (ks : list nat)
      (body : nat -> S -> result S) (s : S) :
  (forall k s, body k s <> OutOfFuel) -> for_each ks body s <> OutOfFuel.
Proof.
  intros Hb. revert s. induction ks as [|k ks IH]; intros s; simpl;
    [discriminate|].
  pose proof (Hb k s). destruct (body k s); cbn [bind];
    [apply IH | discriminate | congruence].
Qed.

Lemma for_each_raises {S : Type} (ks : list nat)
      (body : nat -> S -> result S) (k : nat) (s : S) :
  (forall k s, body k s <> OutOfFuel) ->
  In k ks -> (forall s, body k s = IndexError) ->
  for_each ks body s = IndexError.
Proof.
  intros Hb Hin Hk. revert s.
  induction ks as [|k0 ks IH]; intros s; [contradiction|]. simpl.
  destruct Hin as [->|Hin]; [now rewrite Hk|].
  pose proof (Hb k0 s). destruct (body k0 s); cbn [bind];
    [now apply IH | reflexivity | congruence].
Qed.

Lemma mark_still_no_fuel (g : Streamlines) (i j : nat) (m : mask) :
  mark_still g i j m <> OutOfFuel.
Proof.
  unfold mark_still, Py.getitem2.
  pose proof (getitem_raises (self_u g) (Z.of_nat j)) as H1.
  destruct (Py.getitem (self_u g) (Z.of_nat j)) as [row| |]; cbn [bind];
    [|discriminate|congruence].
  pose proof (getitem_raises row (Z.of_nat i)) as H2.
  destruct (Py.getitem row (Z.of_nat i)) as [a| |]; cbn [bind];
    [|discriminate|congruence].
  destruct (Qeq_bool a 0); [|discriminate].
  pose proof (getitem_raises (self_v g) (Z.of_nat j)) as H3.
  destruct (Py.getitem (self_v g) (Z.of_nat j)) as [row'| |]; cbn [bind];
    [|discriminate|congruence].
  pose proof (getitem_raises row' (Z.of_nat i)) as H4.
  destruct (Py.getitem row' (Z.of_nat i)) as [b| |]; cbn [bind];
    [|discriminate|congruence].
  destruct (Qeq_bool b 0); [|discriminate].
  unfold Mask.set_cell.
  destruct (Py.index (Mask.nrows m) (Z.of_nat j)); [|discriminate].
  destruct (Py.index (Mask.ncols m) (Z.of_nat i)); discriminate.
Qed.

Lemma border_no_fuel (U : list (list Q)) : border U <> OutOfFuel.
Proof.
  unfold border, Mask.set_row, Mask.set_col.
  repeat (match goal with
          | |- context [Py.index ?n ?k] => destruct (Py.index n k)
          end; cbn [bind]; try discriminate).
Qed.

Lemma mark_all_still_raises (g : Streamlines) (rows cols : nat) (m : mask) :
  Mask.shape rows cols (self_u g) ->
  (rows < length (self_y g) \/ cols < length (self_x g))%nat ->
  (1 <= length (self_x g))%nat -> (1 <= length (self_y g))%nat ->
  mark_all_still g m = IndexError.
Proof.
  intros HU Hsmall Hnx Hny. unfold mark_all_still, for_range.
  assert (Hinner : forall i s,
             for_each (seq 0 (length (self_y g))) (mark_still g i) s
             <> OutOfFuel).
  { intros i s. apply for_each_no_fuel. intros. apply mark_still_no_fuel. }
  destruct (Nat.lt_ge_cases rows (length (self_y g))) as [Hr|Hr].
  - apply (for_each_raises _ _ 0%nat); [exact Hinner | apply in_seq; lia |].
    intros s. apply (for_each_raises _ _ rows);
      [intros; apply mark_still_no_fuel | apply in_seq; lia |].
    intros s'. unfold mark_still, Py.getitem2.
    rewrite getitem_overflow by (destruct HU as [-> _]; lia). reflexivity.
  - assert (Hc : (cols < length (self_x g))%nat) by lia.
    apply (for_each_raises _ _ cols); [exact Hinner | apply in_seq; lia |].
    intros s. apply (for_each_raises _ _ 0%nat);
      [intros; apply mark_still_no_fuel | apply in_seq; lia |].
    intros s'. unfold mark_still, Py.getitem2.
    rewrite (getitem_nat (self_u g) 0 []) by (destruct HU as [-> _]; lia).
    cbn [bind]. rewrite getitem_overflow; [reflexivity|].
    rewrite (shape_row rows cols (self_u g) 0 HU) by lia. lia.
Qed.

(** Lines 74-84: a velocity array [U] with fewer rows than [y] has
    coordinates, or fewer columns than [x] has, is not accepted: the scan
    for cells without velocity reads [u[j, i]] for every grid index and
    construction raises [IndexError] (on the border marking already when
    [U] has no row or no column). *)
Theorem small_field_raises {np : NumPy} (X Y : ndarray) (U V : list (list Q))
        (res : Q) (spacing maxLen : Z) (detectLoops : bool)
        (x y : list Q) (rows cols fuel : nat) :
  axis_x X = Val x -> axis_y Y = Val y -> x <> [] -> y <> [] ->
  Mask.shape rows cols U ->
  (rows < length y \/ cols < length x)%nat ->
  __init__ fuel X Y U V res spacing maxLen detectLoops = IndexError.
Proof.
  intros Ex Ey Hx Hy HU Hsmall.
  destruct (attrs_Val X Y U V res spacing maxLen detectLoops x y Ex Ey Hx Hy)
    as (g & Eg & Egx & Egy).
  pose proof (attrs_constructed _ _ _ _ _ _ _ _ _ Eg) as (_ & _ & _ & HgU & _).
  unfold __init__. rewrite Eg. cbn [bind].
  pose proof (border_no_fuel (self_u g)) as Hb.
  destruct (border (self_u g)) as [m| |]; cbn [bind];
    [|reflexivity|congruence].
  rewrite (mark_all_still_raises g rows cols m); [reflexivity | | | |].
  - now rewrite HgU.
  - now rewrite Egx, Egy.
  - rewrite Egx. destruct x; [congruence | simpl; lia].
  - rewrite Egy. destruct y; [congruence | simpl; lia].
Qed.

Lemma small_field_raises_witness :
  @__init__ east 2 (Arr1 axis3) (Arr1 axis3) (uniform 2 3 1) (uniform 3 3 0)
            (1 # 2) 2 2500 false = IndexError.
Proof.
  assert (HU : Mask.shape 2 3 (uniform 2 3 1))
    by (split; [reflexivity | repeat constructor]).
  exact (@small_field_raises east (Arr1 axis3) (Arr1 axis3) (uniform 2 3 1)
           (uniform 3 3 0) (1 # 2) 2 2500 false axis3 axis3 2 3 2
           eq_refl eq_refl axis3_nonempty axis3_nonempty HU
           (or_introl (proj1 (Nat.ltb_lt 2 3) eq_refl))).
Defined.

(** ** The drawing loop *)

Lemma removelast_length {A : Type} (l : list A) :
  length (removelast l) = (length l - 1)%nat.
Proof.
  destruct l as [|a l]; [reflexivity|].
  destruct (exists_last (l := a :: l)) as (l' & b & E); [discriminate|].
  rewrite E, removelast_last, length_app. simpl. lia.
Qed.

Lemma removelast_nth {A : Type} (l : list A) (k : nat) (d : A) :
  (k + 1 < length l)%nat -> nth k (removelast l) d = nth k l d.
Proof.
  intros Hk. destruct l as [|a l]; [simpl in Hk; lia|].
  destruct (exists_last (l := a :: l)) as (l' & b & E); [discriminate|].
  rewrite E in *. rewrite length_app in Hk. simpl in Hk.
  rewrite removelast_last, app_nth1 by lia. reflexivity.
Qed.

Lemma cumsum_from_length (acc : Q) (l : list Q) :
  length (cumsum_from acc l) = length l.
Proof.
  revert acc. induction l as [|d l IH]; intros acc; simpl; [reflexivity|].
  now rewrite IH.
Qed.

Lemma cumsum_length (l : list Q) : length (cumsum l) = length l.
Proof. destruct l; simpl; [reflexivity|]. now rewrite cumsum_from_length. Qed.

(** Lines 218-230: a streamline of [n] points is cut into [n - 1]
    segments, the [k]-th joining point [k] to point [k + 1], so that
    consecutive segments share an end; there is one line width for each
    segment, and every width lies in the interval from [1], excluded, to
    [2], included, whatever phase is drawn. *)
Theorem drawing_arrays {np : NumPy} (phase : Q) (pts : list (Q * Q)) :
  length (segments pts) = (length pts - 1)%nat /\
  (forall k d, (k + 1 < length pts)%nat ->
               nth k (segments pts) (d, d) = (nth k pts d, nth (k + 1) pts d)) /\
  length (linewidths phase pts) = length (segments pts) /\
  Forall (fun w => 1 < w /\ w <= 2) (linewidths phase pts).
Proof.
  assert (Hlen : length (segments pts) = (length pts - 1)%nat).
  { unfold segments. rewrite length_combine, removelast_length.
    destruct pts; simpl; lia. }
  split; [exact Hlen|]. split; [|split].
  - intros k d Hk. unfold segments.
    rewrite combine_nth
      by (rewrite removelast_length; destruct pts; simpl; lia).
    rewrite removelast_nth by exact Hk.
    destruct pts as [|p pts]; [simpl in Hk; lia|].
    replace (k + 1)%nat with (S k) by lia. reflexivity.
  - unfold linewidths, arclengths, seg_lengths.
    now rewrite !length_map, cumsum_length, length_map.
  - unfold linewidths. apply Forall_forall. intros w Hw.
    apply in_map_iff in Hw. destruct Hw as (l & <- & _).
    destruct (mod1_range (l * (3 # 2))) as [H0 H1]. split; lra.
Qed.

(** ** The mask covers the streamline *)


Section Coverage.

Context {np : NumPy}.
Variable g : Streamlines.
Hypothesis Hg : constructed g.
Hypothesis Hfit : fits g.
Hypothesis Hsp : (1 <= self_spacing g)%Z.





End Coverage.

